(** * iq-test-backend: the assessment engine and the balance ledger

    A shallow embedding of the request handlers that carry the invariants
    of the service:

    - [src/routes/test.js]: [GET /test/questions], [POST /test/submit],
      [GET /test/history] and [GET /test/result/:id];
    - [src/routes/transactions.js]: [POST /transactions/transfer],
      [PATCH /transactions/admin/:id/status], [GET /transactions/history]
      and [GET /transactions/users/search];
    - [src/routes/admin.js]: [PATCH /admin/users/:id/balance] and
      [GET /admin/stats].

    Every [await db...] of a handler is one statement sent to MySQL.  The
    tables are modelled with the columns the handlers read or write
    ([src/db/schema.js]), the request bodies as the JSON values that
    [express.json()] hands over, and the JavaScript numbers of the score
    computation as IEEE-754 binary64 values (the [spec_float] operations of
    the standard library with [prec = 53] and [emax = 1024]). *)

From stdpp Require Import gmap strings list.
From Stdlib Require Import ZArith QArith Qround SpecFloat.

Local Open Scope Z_scope.
Set Warnings "-register-all".

(** ** JavaScript values and numbers *)

Module JS.

(** A value found in a parsed JSON body.  [VUndefined] is what reading an
    absent property yields.  The numbers the handlers meet in a body are
    question ids, compared with the integer keys of result rows: a number is
    kept as the integer it denotes, and numbers with a fractional part are
    left out of the model. *)
Inductive value :=
| VUndefined
| VNull
| VBool (b : bool)
| VNum (n : Z)
| VStr (s : string)
| VArr (items : list value)
| VObj (fields : list (string * value)).

(** [!v] is [negb (truthy v)]. *)
Definition truthy (v : value) : bool :=
  match v with
  | VUndefined | VNull => false
  | VBool b => b
  | VNum n => negb (n =? 0)
  | VStr s => negb (String.eqb s "")
  | VArr _ | VObj _ => true
  end.

Definition isArray (v : value) : bool :=
  match v with VArr _ => true | _ => false end.

(** The elements of an array; the handlers read them only after
    [Array.isArray] has answered [true]. *)
Definition items_of (v : value) : list value :=
  match v with VArr items => items | _ => [] end.

(** [a === b].  Arrays and objects compare by reference; a value taken from
    the request body and one taken from a result row are never the same
    reference. *)
Definition strict_eq (a b : value) : bool :=
  match a, b with
  | VUndefined, VUndefined => true
  | VNull, VNull => true
  | VBool x, VBool y => Bool.eqb x y
  | VNum x, VNum y => x =? y
  | VStr x, VStr y => String.eqb x y
  | _, _ => false
  end.

(** The own property [k] of an object literal; [JSON.parse] keeps the last
    of several members with the same name. *)
Fixpoint field (k : string) (fields : list (string * value)) : option value :=
  match fields with
  | [] => None
  | (k', v) :: rest =>
      match field k rest with
      | Some w => Some w
      | None => if String.eqb k k' then Some v else None
      end
  end.

(** [v.k] for the two property names the handlers read, [questionId] and
    [selectedAnswer].  [None] is the [TypeError] raised on [null] and
    [undefined]; primitives and arrays have no such property. *)
Definition get (v : value) (k : string) : option value :=
  match v with
  | VUndefined | VNull => None
  | VObj fields => Some (default VUndefined (field k fields))
  | VBool _ | VNum _ | VStr _ | VArr _ => Some VUndefined
  end.

(** [m.get(key)] on a [Map] whose keys are the integer ids of result rows:
    under SameValueZero only a number can hit a key. *)
Definition Map_get {A} (m : gmap Z A) (key : value) : option A :=
  match key with
  | VNum z => m !! z
  | _ => None
  end.

(** *** Numbers: IEEE-754 binary64 *)

Definition prec : Z := 53.
Definition emax : Z := 1024.

Abbreviation number := spec_float.

(** An integer-valued number, as [correctCount], [answers.length] and the
    integer literals are. *)
Definition of_int (z : Z) : number := binary_normalize prec emax z 0 false.

Definition div (x y : number) : number := SFdiv prec emax x y.
Definition mul (x y : number) : number := SFmul prec emax x y.
Definition sub (x y : number) : number := SFsub prec emax x y.
(** [x >= y] *)
Definition ge (x y : number) : bool := SFleb y x.

(** The literal [0.6]: the binary64 value nearest to 6/10. *)
Definition lit_0_6 : number := S754_finite false 5404319552844595 (-53).

(** [Math.floor] of a finite number, as the integer it denotes. *)
Definition Math_floor (x : number) : Z :=
  match x with
  | S754_finite s m e => Z.shiftl (cond_Zopp s (Zpos m)) e
  | _ => 0
  end.

(** [Math.round]: the nearest integer, ties towards +infinity, computed on
    the exact value of the number. *)
Definition Math_round (x : number) : Z :=
  match x with
  | S754_finite s m e =>
      if 0 <=? e then Z.shiftl (cond_Zopp s (Zpos m)) e
      else Z.shiftr (cond_Zopp s (Zpos m) + 2 ^ (- e - 1)) (- e)
  | _ => 0
  end.

End JS.

(** ** Replies

    What a handler sends back: the HTTP status together with which of its
    [res.status(..).json(..)] statements produced it. *)

Inductive error_kind :=
| ValidationError
| NotFoundError
| ForbiddenError
| InsufficientFundsError
| InvalidStateError
| InternalError.

Definition status_code (k : error_kind) : Z :=
  match k with
  | ValidationError | InsufficientFundsError | InvalidStateError => 400
  | ForbiddenError => 403
  | NotFoundError => 404
  | InternalError => 500
  end.

(** ** The assessment engine ([src/routes/test.js]) *)

Module Assessment.
Import JS.

(** *** Tables *)

(** The columns of [questions] that [GET /questions] selects. *)
Record question := {
  q_id : Z;
  questionText : string;
  imageUrl : option string
}.

(** A row of [question_options]; [label] and [option_text] are nullable.
    [is_correct] is only ever tested for truthiness, so a NULL there is
    [false]. *)
Record option_row := {
  o_questionId : Z;
  o_label : option string;
  o_optionText : option string;
  o_isCorrect : bool
}.

Record test_result := {
  tr_id : Z;
  tr_userId : Z;
  tr_score : Z;
  tr_totalQuestions : Z;
  tr_iqScore : Z
}.

(** The columns of [user_answers] that the insert of [POST /submit] fills:
    the table has no [selected_answer] column, so that member of the
    inserted object is dropped by the query builder. *)
Record user_answer := {
  ua_testResultId : Z;
  ua_questionId : Z;
  ua_isCorrect : bool
}.

(** Tables are lists of rows in the order a [select] returns them;
    [next_result_id] is the AUTO_INCREMENT counter of [test_results]. *)
Record db := {
  questions : list question;
  questionOptions : list option_row;
  testResults : list test_result;
  userAnswers : list user_answer;
  next_result_id : Z
}.

(** *** GET /questions *)

(** What the client receives for an option: [{ label, optionText }]. *)
Record client_option := {
  label : option string;
  optionText : option string
}.

Record client_question := {
  cq_question : question;
  options : list client_option
}.

(** [optionsMap]: the options of every question, grouped by [questionId]
    in table order. *)
Definition optionsMap (allOptions : list option_row) : gmap Z (list client_option) :=
  foldl
    (fun m opt =>
       let arr := default [] (m !! o_questionId opt) in
       <[o_questionId opt :=
           arr ++ [{| label := o_label opt; optionText := o_optionText opt |}]]> m)
    ∅ allOptions.

Definition attach_options (m : gmap Z (list client_option)) (q : question)
  : client_question :=
  {| cq_question := q; options := default [] (m !! q_id q) |}.

Section Selection.

(** [allQuestions.sort(() => Math.random() - 0.5)]: the order produced by
    sorting with a comparator that answers at random.  The engine's sort
    moves the elements of the array; which order comes out is not fixed. *)
Variable sort_random : list question -> list question.

Definition selectedQuestions (allQuestions : list question) : list question :=
  let shuffled := sort_random allQuestions in
  take 20 shuffled.

(** The [questions] member of the reply of [GET /questions]. *)
Definition getQuestions (d : db) : list client_question :=
  let selected := selectedQuestions (questions d) in
  let m := optionsMap (questionOptions d) in
  attach_options m <$> selected.

End Selection.

(** *** POST /submit *)

(** The value a result row holds for a nullable varchar. *)
Definition label_value (l : option string) : value :=
  match l with
  | Some s => VStr s
  | None => VNull
  end.

(** [correctMap]: for each question the label of its last option flagged
    correct. *)
Definition correctMap (optionsData : list option_row) : gmap Z value :=
  foldl
    (fun m o =>
       if o_isCorrect o then <[o_questionId o := label_value (o_label o)]> m else m)
    ∅ optionsData.

Record answer_result := {
  ar_questionId : value;
  ar_selectedAnswer : value;
  ar_isCorrect : bool
}.

(** The body of the [answers.map] callback; [None] when reading a property
    of the entry throws. *)
Definition score_answer (cm : gmap Z value) (answer : value) : option answer_result :=
  qid ← get answer "questionId";
  let correctAnswer := default VUndefined (Map_get cm qid) in
  sel ← get answer "selectedAnswer";
  let isCorrect := strict_eq sel correctAnswer in
  Some {| ar_questionId := qid; ar_selectedAnswer := sel; ar_isCorrect := isCorrect |}.

Definition answerResults (cm : gmap Z value) (answers : list value)
  : option (list answer_result) :=
  mapM (score_answer cm) answers.

(** [correctCount] once the [map] has run to its end. *)
Definition correctCount (rs : list answer_result) : Z :=
  Z.of_nat (length (filter (fun r => ar_isCorrect r = true) rs)).

(** [(correctCount / totalQuestions) * 100] *)
Definition percentage (correctCount totalQuestions : Z) : number :=
  mul (div (of_int correctCount) (of_int totalQuestions)) (of_int 100).

Definition iqScore (percentage : number) : Z :=
  if ge percentage (of_int 90) then
    130 + Math_floor (mul (sub percentage (of_int 90)) (of_int 2))
  else if ge percentage (of_int 75) then
    115 + Math_floor (mul (sub percentage (of_int 75)) (of_int 1))
  else if ge percentage (of_int 50) then
    100 + Math_floor (mul (sub percentage (of_int 50)) lit_0_6)
  else if ge percentage (of_int 25) then
    85 + Math_floor (mul (sub percentage (of_int 25)) lit_0_6)
  else
    70 + Math_floor (mul percentage lit_0_6).

(** The [result] member of the reply. *)
Record result := {
  r_id : Z;
  r_score : Z;
  r_totalQuestions : Z;
  r_iqScore : Z;
  r_percentage : Z
}.

Inductive reply :=
| Submitted (r : result)
| AnswersRequired
| ServerError.

Definition reply_error (r : reply) : option error_kind :=
  match r with
  | Submitted _ => None
  | AnswersRequired => Some ValidationError
  | ServerError => Some InternalError
  end.

Section Persistence.

(** How the server reads a bound parameter that is not a number (a numeric
    string, a boolean, ...) for an INT column; [None] when the statement is
    refused.  This is MySQL's coercion, not fixed by the repository. *)
Variable coerce_other : value -> option Z.

Definition db_int (v : value) : option Z :=
  match v with
  | VNum z => Some z
  | _ => coerce_other v
  end.

(** [db.insert(testResults).values({...})]: the new row gets the next id,
    which is the [insertId].  [req.user.id] comes from a verified token of a
    registered user and no route deletes users, so the foreign key on
    [user_id] holds. *)
Definition insert_testResult (d : db) (userId score total iq : Z) : db * Z :=
  let rid := next_result_id d in
  ({| questions := questions d;
      questionOptions := questionOptions d;
      testResults := testResults d ++
        [{| tr_id := rid; tr_userId := userId; tr_score := score;
            tr_totalQuestions := total; tr_iqScore := iq |}];
      userAnswers := userAnswers d;
      next_result_id := rid + 1 |}, rid).

(** [db.insert(userAnswers).values({...})]: [question_id] is NOT NULL and
    references [questions.id], so the statement fails unless the submitted
    id denotes a stored question. *)
Definition insert_userAnswer (d : db) (testResultId : Z) (a : answer_result)
  : option db :=
  qid ← db_int (ar_questionId a);
  if bool_decide (qid ∈ q_id <$> questions d) then
    Some {| questions := questions d;
            questionOptions := questionOptions d;
            testResults := testResults d;
            userAnswers := userAnswers d ++
              [{| ua_testResultId := testResultId; ua_questionId := qid;
                  ua_isCorrect := ar_isCorrect a |}];
            next_result_id := next_result_id d |}
  else None.

(** The [for ... of answerResults] loop; [false] when an insert threw, with
    the rows written before it kept. *)
Fixpoint insert_userAnswers (d : db) (testResultId : Z) (rs : list answer_result)
  : db * bool :=
  match rs with
  | [] => (d, true)
  | a :: rest =>
      match insert_userAnswer d testResultId a with
      | Some d' => insert_userAnswers d' testResultId rest
      | None => (d, false)
      end
  end.

(** [POST /submit] for the user [userId] with [req.body.answers = answers]. *)
Definition submit (d : db) (userId : Z) (answers : value) : db * reply :=
  if negb (truthy answers) || negb (isArray answers)
     || (length (items_of answers) =? 0)%nat
  then (d, AnswersRequired)
  else
    let totalQuestions := Z.of_nat (length (items_of answers)) in
    let cm := correctMap (questionOptions d) in
    match answerResults cm (items_of answers) with
    | None => (d, ServerError)
    | Some rs =>
        let score := correctCount rs in
        let p := percentage score totalQuestions in
        let iq := iqScore p in
        let '(d1, testResultId) :=
          insert_testResult d userId score totalQuestions iq in
        match insert_userAnswers d1 testResultId rs with
        | (d2, true) =>
            (d2, Submitted {| r_id := testResultId; r_score := score;
                              r_totalQuestions := totalQuestions;
                              r_iqScore := iq;
                              r_percentage := Math_round p |})
        | (d2, false) => (d2, ServerError)
        end
    end.

End Persistence.

(** *** The banding as the design document writes it

    [percentage = 100 * score / totalQuestions] over the rationals. *)

Definition spec_percentage (score totalQuestions : Z) : Q :=
  (100 * inject_Z score / inject_Z totalQuestions)%Q.

Definition spec_iqScore (p : Q) : Z :=
  if Qle_bool 90 p then 130 + Qfloor ((p - 90) * 2)%Q
  else if Qle_bool 75 p then 115 + Qfloor ((p - 75) * 1)%Q
  else if Qle_bool 50 p then 100 + Qfloor ((p - 50) * 0.6)%Q
  else if Qle_bool 25 p then 85 + Qfloor ((p - 25) * 0.6)%Q
  else 70 + Qfloor (p * 0.6)%Q.

(** [round(percentage)], halves upwards. *)
Definition spec_round (p : Q) : Z := Qfloor (p + (1 # 2))%Q.

(** The document's [100 * score / totalQuestions] read as a binary64
    expression: the product first, then the division. *)
Definition percentage_as_written (score totalQuestions : Z) : number :=
  div (mul (of_int 100) (of_int score)) (of_int totalQuestions).

(** The handler's score against the document's, for a score of [k] out of
    [n]: equal, or one below. *)
Definition iq_within_one (k n : Z) : bool :=
  let code := iqScore (percentage k n) in
  let doc := spec_iqScore (spec_percentage k n) in
  (doc - 1 <=? code) && (code <=? doc).

Definition round_within_one (k n : Z) : bool :=
  let code := Math_round (percentage k n) in
  let doc := spec_round (spec_percentage k n) in
  (doc - 1 <=? code) && (code <=? doc).

(** Equal when the percentage is a whole number. *)
Definition iq_exact_on_whole (k n : Z) : bool :=
  if (100 * k) mod n =? 0 then
    (iqScore (percentage k n) =? spec_iqScore (spec_percentage k n))
    && (Math_round (percentage k n) =? spec_round (spec_percentage k n))
  else true.

Definition bands_checked (k n : Z) : bool :=
  iq_within_one k n && round_within_one k n && iq_exact_on_whole k n.

(** Scores out of 100000 answers that give the percentages 0, 24.999, 25,
    49.999, 50, 74.999, 75, 89.999, 90 and 100. *)
Definition boundary_scores : list Z :=
  [0; 24999; 25000; 49999; 50000; 74999; 75000; 89999; 90000; 100000].

(** *** What an option row tells apart from its correctness *)

Definition without_correct (o : option_row) : Z * option string * option string :=
  (o_questionId o, o_label o, o_optionText o).

Definition to_client (o : option_row) : client_option :=
  {| label := o_label o; optionText := o_optionText o |}.

(** *** A small question pool

    Question 1 is multiple choice with the correct label D; question 2 is
    multiple choice with the correct label B; question 3 is a short-answer
    question and has no option rows. *)

Definition quiz0 : db :=
  {| questions :=
       [{| q_id := 1; questionText := "8 + 4 = ?"; imageUrl := None |};
        {| q_id := 2; questionText := "2, 6, 12, 20, 30, ?"; imageUrl := None |};
        {| q_id := 3; questionText := "Name the next prime after 7";
           imageUrl := None |}];
     questionOptions :=
       [{| o_questionId := 1; o_label := Some "A"; o_optionText := Some "96";
           o_isCorrect := false |};
        {| o_questionId := 1; o_label := Some "D"; o_optionText := Some "108";
           o_isCorrect := true |};
        {| o_questionId := 2; o_label := Some "A"; o_optionText := Some "40";
           o_isCorrect := false |};
        {| o_questionId := 2; o_label := Some "B"; o_optionText := Some "42";
           o_isCorrect := true |}];
     testResults := [];
     userAnswers := [];
     next_result_id := 1 |}.

(** A server that refuses every parameter that is not a number. *)
Definition refuse_other (v : value) : option Z := None.

Definition answer (questionId : Z) (selectedAnswer : string) : value :=
  VObj [("questionId", VNum questionId); ("selectedAnswer", VStr selectedAnswer)].

(** An entry that carries no [selectedAnswer]. *)
Definition unanswered (questionId : Z) : value :=
  VObj [("questionId", VNum questionId)].

End Assessment.

(** ** The ledger ([src/routes/transactions.js]) *)

Module Ledger.

(** *** Tables

    [balance] and [amount] are DECIMAL(10,2) columns, kept here as a whole
    number of hundredths.  The handlers compare them through [parseFloat];
    on decimals of at most ten digits that comparison agrees with the
    comparison of the hundredths, and [balance - amount], [balance + amount]
    rounded back to two places are the exact difference and sum. *)

Inductive tx_status := pending | completed | failed.

#[export] Instance tx_status_eq_dec : EqDecision tx_status.
Proof. solve_decision. Defined.

Record user := {
  balance : Z
}.

Record transaction := {
  senderId : Z;
  receiverId : Z;
  amount : Z;
  status : tx_status
}.

(** [next_tx_id] is the AUTO_INCREMENT counter of [transactions]. *)
Record db := {
  users : gmap Z user;
  transactions : gmap Z transaction;
  next_tx_id : Z
}.

(** The values a DECIMAL(10,2) column can hold. *)
Definition decimal_10_2 (z : Z) : bool :=
  (-9999999999 <=? z) && (z <=? 9999999999).

(** *** Requests and replies *)

Inductive role := RoleUser | RoleAdmin.

#[export] Instance role_eq_dec : EqDecision role.
Proof. solve_decision. Defined.

(** [req.user], decoded from the bearer token by [authMiddleware]. *)
Record auth_user := {
  id : Z;
  user_role : role
}.

(** The body of [POST /transfer] as the validators see it: [receiverId] is
    [Some] when [isInt] accepts it (then it is what [parseInt] returns),
    [amount] is [Some] when it reads as a float, in hundredths. *)
Record transfer_body := {
  body_receiverId : option Z;
  body_amount : option Z
}.

(** [PATCH /admin/:id/status]: [parseInt(req.params.id)] and
    [req.body.status]; [None] is any value that is not one of the three
    status words. *)
Record settle_request := {
  actor : auth_user;
  param_id : Z;
  body_status : option tx_status
}.

Inductive reply :=
| TransferCreated (transactionId : Z)
| StatusUpdated (s : tx_status)
| InvalidInput
| SelfTransfer
| ReceiverNotFound
| InsufficientBalance
| TransactionNotFound
| NotPending
| AdminRequired
| ServerError.

Definition reply_error (r : reply) : option error_kind :=
  match r with
  | TransferCreated _ | StatusUpdated _ => None
  | InvalidInput | SelfTransfer => Some ValidationError
  | ReceiverNotFound | TransactionNotFound => Some NotFoundError
  | InsufficientBalance => Some InsufficientFundsError
  | NotPending => Some InvalidStateError
  | AdminRequired => Some ForbiddenError
  | ServerError => Some InternalError
  end.

(** *** Statements *)

Definition set_users (d : db) (us : gmap Z user) : db :=
  {| users := us; transactions := transactions d; next_tx_id := next_tx_id d |}.

Definition set_transactions (d : db) (ts : gmap Z transaction) : db :=
  {| users := users d; transactions := ts; next_tx_id := next_tx_id d |}.

(** [update users set balance = balance + delta where id = uid].  No row
    matched is no error; a value outside the column's range makes the
    statement fail (strict SQL mode, the server's default). *)
Definition update_balance (d : db) (uid delta : Z) : option db :=
  match users d !! uid with
  | None => Some d
  | Some u =>
      let b := balance u + delta in
      if decimal_10_2 b then Some (set_users d (<[uid := {| balance := b |}]> (users d)))
      else None
  end.

Definition with_status (s : tx_status) (tx : transaction) : transaction :=
  {| senderId := senderId tx; receiverId := receiverId tx;
     amount := amount tx; status := s |}.

(** [update transactions set status = s where id = tid] *)
Definition update_status (d : db) (tid : Z) (s : tx_status) : db :=
  set_transactions d (alter (with_status s) tid (transactions d)).

(** [insert into transactions]: both user columns reference [users.id]. *)
Definition insert_transaction (d : db) (tx : transaction) : option (db * Z) :=
  if bool_decide (is_Some (users d !! senderId tx))
     && bool_decide (is_Some (users d !! receiverId tx))
     && decimal_10_2 (amount tx)
  then
    let insertId := next_tx_id d in
    Some ({| users := users d;
             transactions := <[insertId := tx]> (transactions d);
             next_tx_id := insertId + 1 |}, insertId)
  else None.

(** *** POST /transfer *)

(** [validationResult(req).isEmpty()] for [isInt()] on [receiverId] and
    [isFloat({ min: 0.01 })] on [amount]. *)
Definition transfer_valid (b : transfer_body) : option (Z * Z) :=
  match body_receiverId b, body_amount b with
  | Some receiverId, Some amount =>
      if 1 <=? amount then Some (receiverId, amount) else None
  | _, _ => None
  end.

Definition requestTransfer (d : db) (u : auth_user) (b : transfer_body)
  : db * reply :=
  match transfer_valid b with
  | None => (d, InvalidInput)
  | Some (receiverId, amount) =>
      let senderId := id u in
      if senderId =? receiverId then (d, SelfTransfer)
      else
        match users d !! receiverId with
        | None => (d, ReceiverNotFound)
        | Some _ =>
            match users d !! senderId with
            | None => (d, ServerError)
            | Some sender =>
                if balance sender <? amount then (d, InsufficientBalance)
                else
                  match insert_transaction d
                          {| senderId := senderId; receiverId := receiverId;
                             amount := amount; status := pending |} with
                  | Some (d', insertId) => (d', TransferCreated insertId)
                  | None => (d, ServerError)
                  end
            end
        end
  end.

(** *** PATCH /admin/:id/status

    Between two [await]s a handler runs alone, and each awaited statement
    is executed by the server as a unit; nothing groups the statements of
    one request.  [settle_pc] is the statement a request is about to send,
    with the locals it holds. *)

Inductive settle_pc :=
| SelectTransaction (tid : Z) (s : tx_status)
| SelectSender (tid : Z) (s : tx_status) (tx : transaction)
| DeductSender (tid : Z) (s : tx_status) (tx : transaction)
| AddReceiver (tid : Z) (s : tx_status) (tx : transaction)
| UpdateStatus (tid : Z) (s : tx_status)
| Replied (r : reply).

(** The [isIn(["completed", "failed"])] validator on [status]. *)
Definition status_valid (s : option tx_status) : option tx_status :=
  match s with
  | Some completed => Some completed
  | Some failed => Some failed
  | Some pending | None => None
  end.

(** [adminMiddleware], then the validator. *)
Definition settle_begin (r : settle_request) : settle_pc :=
  if bool_decide (user_role (actor r) ≠ RoleAdmin) then Replied AdminRequired
  else
    match status_valid (body_status r) with
    | None => Replied InvalidInput
    | Some s => SelectTransaction (param_id r) s
    end.

(** One awaited statement and the code up to the next one. *)
Definition settle_step (d : db) (pc : settle_pc) : db * settle_pc :=
  match pc with
  | SelectTransaction tid s =>
      match transactions d !! tid with
      | None => (d, Replied TransactionNotFound)
      | Some tx =>
          if bool_decide (status tx ≠ pending) then (d, Replied NotPending)
          else if bool_decide (s = completed) then (d, SelectSender tid s tx)
          else (d, UpdateStatus tid s)
      end
  | SelectSender tid s tx =>
      match users d !! senderId tx with
      | None => (d, Replied ServerError)
      | Some sender =>
          if balance sender <? amount tx then (d, Replied InsufficientBalance)
          else (d, DeductSender tid s tx)
      end
  | DeductSender tid s tx =>
      match update_balance d (senderId tx) (- amount tx) with
      | Some d' => (d', AddReceiver tid s tx)
      | None => (d, Replied ServerError)
      end
  | AddReceiver tid s tx =>
      match update_balance d (receiverId tx) (amount tx) with
      | Some d' => (d', UpdateStatus tid s)
      | None => (d, Replied ServerError)
      end
  | UpdateStatus tid s => (update_status d tid s, Replied (StatusUpdated s))
  | Replied r => (d, Replied r)
  end.

Fixpoint settle_run (n : nat) (d : db) (pc : settle_pc) : db * settle_pc :=
  match n with
  | O => (d, pc)
  | S n' => let '(d', pc') := settle_step d pc in settle_run n' d' pc'
  end.

(** The handler run from its first statement to its reply with no other
    request in between. *)
Definition adminSettle (d : db) (r : settle_request) : db * reply :=
  if bool_decide (user_role (actor r) ≠ RoleAdmin) then (d, AdminRequired)
  else
    match status_valid (body_status r) with
    | None => (d, InvalidInput)
    | Some s =>
        let tid := param_id r in
        match transactions d !! tid with
        | None => (d, TransactionNotFound)
        | Some tx =>
            if bool_decide (status tx ≠ pending) then (d, NotPending)
            else if bool_decide (s = completed) then
              match users d !! senderId tx with
              | None => (d, ServerError)
              | Some sender =>
                  if balance sender <? amount tx then (d, InsufficientBalance)
                  else
                    match update_balance d (senderId tx) (- amount tx) with
                    | None => (d, ServerError)
                    | Some d1 =>
                        match update_balance d1 (receiverId tx) (amount tx) with
                        | None => (d1, ServerError)
                        | Some d2 => (update_status d2 tid s, StatusUpdated s)
                        end
                    end
              end
            else (update_status d tid s, StatusUpdated s)
        end
    end.

(** *** Requests in flight

    Several settlement requests served by one process: a schedule names, at
    each turn, the request whose next statement reaches the server.  A
    process that stops is a schedule that ends early. *)

Definition step_request (d : db) (pcs : list settle_pc) (i : nat)
  : db * list settle_pc :=
  match pcs !! i with
  | None => (d, pcs)
  | Some pc => let '(d', pc') := settle_step d pc in (d', <[i := pc']> pcs)
  end.

Fixpoint interleave (d : db) (pcs : list settle_pc) (schedule : list nat)
  : db * list settle_pc :=
  match schedule with
  | [] => (d, pcs)
  | i :: rest => let '(d', pcs') := step_request d pcs i in interleave d' pcs' rest
  end.

(** *** Sequences of core operations *)

Inductive operation :=
| Transfer (u : auth_user) (b : transfer_body)
| Settle (r : settle_request).

Definition exec (d : db) (o : operation) : db * reply :=
  match o with
  | Transfer u b => requestTransfer d u b
  | Settle r => adminSettle d r
  end.

Definition exec_all (d : db) (os : list operation) : db :=
  foldl (fun d o => fst (exec d o)) d os.

(** A ledger before any transfer was requested: accounts whose balances
    the column can hold, and no transaction. *)
Definition initial (d : db) : Prop :=
  transactions d = ∅ /\ next_tx_id d = 1 /\
  forall uid u, users d !! uid = Some u -> decimal_10_2 (balance u) = true.

Inductive reachable : db -> Prop :=
| reachable_initial d : initial d -> reachable d
| reachable_exec d o : reachable d -> reachable (fst (exec d o)).

(** What every reachable ledger satisfies. *)
Record well_formed (d : db) : Prop := {
  wf_balance : forall uid u,
    users d !! uid = Some u -> decimal_10_2 (balance u) = true;
  wf_parties : forall tid tx,
    transactions d !! tid = Some tx ->
    senderId tx ≠ receiverId tx /\
    is_Some (users d !! senderId tx) /\ is_Some (users d !! receiverId tx);
  wf_amount : forall tid tx,
    transactions d !! tid = Some tx -> 1 <= amount tx <= 9999999999;
  wf_fresh : forall tid tx,
    transactions d !! tid = Some tx -> tid < next_tx_id d
}.

(** A request that is turned down with an error of kind [k] and leaves
    every table as it was. *)
Definition fails_with (k : error_kind) (d : db) (res : db * reply) : Prop :=
  fst res = d /\ reply_error (snd res) = Some k.

Definition balance_of (d : db) (uid : Z) : option Z :=
  balance <$> users d !! uid.

Definition status_of (d : db) (tid : Z) : option tx_status :=
  status <$> transactions d !! tid.

(** *** A small ledger

    User 1 holds 50.00, user 2 holds 10.00, user 9 is the administrator. *)

Definition user1 : auth_user := {| id := 1; user_role := RoleUser |}.
Definition admin9 : auth_user := {| id := 9; user_role := RoleAdmin |}.

Definition ledger0 : db :=
  {| users := {[ 1 := {| balance := 5000 |}; 2 := {| balance := 1000 |};
                 9 := {| balance := 0 |} ]};
     transactions := ∅;
     next_tx_id := 1 |}.

(** User 1 asks to send 30.00 to user 2. *)
Definition transfer_30 : transfer_body :=
  {| body_receiverId := Some 2; body_amount := Some 3000 |}.

Definition ledger1 : db := fst (requestTransfer ledger0 user1 transfer_30).

Definition settle_1 (s : tx_status) : settle_request :=
  {| actor := admin9; param_id := 1; body_status := Some s |}.

(** The same pending transfer after the sender's balance dropped to 20.00. *)
Definition ledger1_drained : db :=
  set_users ledger1 (<[1 := {| balance := 2000 |}]> (users ledger1)).

End Ledger.

(** ** Balances as a whole, and the administrator's balance update
    ([src/routes/transactions.js], [src/routes/admin.js]) *)

Module Accounts.
Import JS Ledger.

(** The sum of all balances. *)
Definition total_balance (d : db) : Z :=
  map_fold (fun _ u acc => balance u + acc) 0 (users d).

(** What a settlement in flight has taken from the sender and not yet given
    to the receiver. *)
Definition in_flight (pc : settle_pc) : Z :=
  match pc with
  | AddReceiver _ _ tx => amount tx
  | _ => 0
  end.

Definition in_flight_total (pcs : list settle_pc) : Z :=
  foldr (fun pc acc => in_flight pc + acc) 0 pcs.

(** Both parties of a transaction have a row in [users]. *)
Definition parties_known (d : db) (tx : transaction) : Prop :=
  is_Some (users d !! senderId tx) /\ is_Some (users d !! receiverId tx).

(** The same for the copy of a row that a request in flight holds. *)
Definition pc_known (d : db) (pc : settle_pc) : Prop :=
  match pc with
  | SelectSender _ _ tx | DeductSender _ _ tx | AddReceiver _ _ tx =>
      parties_known d tx
  | _ => True
  end.

(** A request that has replied, and not with a server error. *)
Definition replied_without_error (pc : settle_pc) : Prop :=
  exists r, pc = Replied r /\ r ≠ ServerError.

(** No balance is negative. *)
Definition solvent (d : db) : Prop :=
  forall uid u, users d !! uid = Some u -> 0 <= balance u.

(** *** PATCH /admin/users/:id/balance

    [amount] is the body member as parsed; a number is a count of whole
    currency units here (see [JS.value]), stored as that many hundreds of
    hundredths.  The update matches no row when the user does not exist and
    is then no error. *)

Inductive balance_reply :=
| BalanceUpdated
| AmountInvalid
| NotAdmin
| UpdateFailed.

Definition setBalance (d : db) (actor : auth_user) (uid : Z) (amount : value)
  : db * balance_reply :=
  if bool_decide (user_role actor ≠ RoleAdmin) then (d, NotAdmin)
  else
    match amount with
    | VNum z =>
        match users d !! uid with
        | None => (d, BalanceUpdated)
        | Some _ =>
            if decimal_10_2 (100 * z)
            then (set_users d (<[uid := {| balance := 100 * z |}]> (users d)),
                  BalanceUpdated)
            else (d, UpdateFailed)
        end
    | _ => (d, AmountInvalid)
    end.

End Accounts.

(** ** What a user sees of the ledger ([src/routes/transactions.js]) *)

Module Views.
Import JS Ledger.

(** *** GET /transactions/history *)

Inductive direction := sent | received.

(** A row of the reply: the transaction, the two user names looked up in
    [usersMap] (absent for an id with no user), and [type]. *)
Record history_row := {
  h_id : Z;
  h_transaction : transaction;
  senderUsername : option string;
  receiverUsername : option string;
  h_type : direction
}.

(** [or(eq(senderId, userId), eq(receiverId, userId))] *)
Definition involves (userId : Z) (row : Z * transaction) : Prop :=
  senderId (snd row) = userId \/ receiverId (snd row) = userId.

#[export] Instance involves_dec userId row : Decision (involves userId row).
Proof. unfold involves. apply _. Defined.

Section History.

(** [orderBy(desc(transactions.createdAt))]: the order in which the server
    returns the selected rows. *)
Variable order_by_createdAt : list (Z * transaction) -> list (Z * transaction).

(** [usernames] is the [username] column of [users]. *)
Definition getHistory (d : db) (usernames : gmap Z string) (userId : Z)
  : list history_row :=
  let transactionList :=
    order_by_createdAt (filter (involves userId) (map_to_list (transactions d))) in
  (fun t =>
     {| h_id := fst t;
        h_transaction := snd t;
        senderUsername := usernames !! senderId (snd t);
        receiverUsername := usernames !! receiverId (snd t);
        h_type := if bool_decide (senderId (snd t) = userId) then sent
                  else received |}) <$> transactionList.

End History.

(** *** GET /transactions/users/search *)

Section Search.

(** [username LIKE %q%] as the server evaluates it (wildcards in [q] and
    the collation of the column are the server's). *)
Variable like : string -> string -> bool.

(** [accounts] are the [id] and [username] of the rows of [users] in the
    order the server scans them; [q] is [req.query.q] when it is a string,
    a character standing for a UTF-16 code unit. *)
Definition searchUsers (accounts : list (Z * string)) (me : Z) (q : option string)
  : list (Z * string) :=
  match q with
  | None => []
  | Some q =>
      if negb (truthy (VStr q)) || (String.length q <? 2)%nat then []
      else
        let usersResult := take 10 (filter (fun u => like (snd u) q = true) accounts) in
        filter (fun u => fst u ≠ me) usersResult
  end.

End Search.

End Views.

(** ** Reading a result back ([src/routes/test.js], GET /result/:id) *)

Module Results.
Import JS Ledger Assessment.

(** The replies of the handler: 404, 403 and 500.  It has no other: when
    the result exists and the requester owns it or is an administrator, the
    handler goes on to select the answers, and the field list of that select
    names [userAnswers.selectedAnswer], a column that [src/db/schema.js]
    does not define; building the query throws on the undefined field, and
    the [catch] replies 500.  The code after that select is never reached. *)
Inductive access :=
| ResultNotFound
| AccessDenied
| ResultFailed.

(** [id] is [parseInt(req.params.id)], [None] when that is [NaN]; the
    first select, sent with [NaN] for the id, fails and the [catch] replies
    500. *)
Definition result_access (d : db) (user : Ledger.auth_user) (id : option Z)
  : access :=
  match id with
  | None => ResultFailed
  | Some i =>
      match filter (fun row => tr_id row = i) (testResults d) with
      | [] => ResultNotFound
      | row :: _ =>
          if bool_decide (tr_userId row ≠ Ledger.id user)
             && bool_decide (Ledger.user_role user ≠ Ledger.RoleAdmin)
          then AccessDenied
          else ResultFailed
      end
  end.

(** The options of question [q] that are flagged correct, in table order. *)
Definition flagged (opts : list option_row) (q : Z) : list option_row :=
  filter (fun o => o_isCorrect o = true /\ o_questionId o = q) opts.

(** The ids of [test_results] lie below the AUTO_INCREMENT counter. *)
Definition results_fresh (d : db) : Prop :=
  forall row, row ∈ testResults d -> tr_id row < next_result_id d.

(** The pairs of neighbouring scores out of [n] answers on which the IQ
    does not fall, and the scores whose IQ lies between 70 and 150. *)
Definition iq_steps_up (n : Z) : bool :=
  forallb
    (fun k => iqScore (percentage k n) <=? iqScore (percentage (k + 1) n))
    (seqZ 0 n).

Definition iq_in_range (n : Z) : bool :=
  forallb
    (fun k => (70 <=? iqScore (percentage k n)) && (iqScore (percentage k n) <=? 150))
    (seqZ 0 (n + 1)).

Definition iq_ends (n : Z) : bool :=
  (iqScore (percentage 0 n) =? 70) && (iqScore (percentage n n) =? 150).

(** *** GET /history *)

Section TestHistory.

(** [orderBy(desc(testResults.completedAt))]: the order in which the
    server returns the selected rows. *)
Variable order_by_completedAt : list test_result -> list test_result.

Definition getTestHistory (d : db) (userId : Z) : list test_result :=
  order_by_completedAt (filter (fun row => tr_userId row = userId) (testResults d)).

End TestHistory.

End Results.

(** ** The administrator's dashboard ([src/routes/admin.js], GET /stats)
    and the books behind its figures *)

Module Dashboard.
Import JS Ledger.

(** [select SUM(w) from transactions], 0 on an empty table. *)
Definition tally (w : transaction -> Z) (ts : gmap Z transaction) : Z :=
  map_fold (fun _ tx acc => w tx + acc) 0 ts.

(** The summand of [COUNT( * ) ... where P] and of
    [COALESCE(SUM(amount), 0) ... where P]. *)
Definition count_if (P : transaction -> bool) (tx : transaction) : Z :=
  if P tx then 1 else 0.

Definition amount_if (P : transaction -> bool) (tx : transaction) : Z :=
  if P tx then amount tx else 0.

Definition has_status (s : tx_status) (tx : transaction) : bool :=
  bool_decide (status tx = s).

Record stats := {
  totalUsers : Z;
  totalTests : Z;
  pendingTransactions : Z;
  totalTransactionVolume : Z
}.

(** [None] is the 403 of [adminMiddleware]. *)
Definition getStats (d : db) (a : Assessment.db) (actor : auth_user)
  : option stats :=
  if bool_decide (user_role actor ≠ RoleAdmin) then None
  else
    Some {| totalUsers := Z.of_nat (size (users d));
            totalTests := Z.of_nat (length (Assessment.testResults a));
            pendingTransactions :=
              tally (count_if (has_status pending)) (transactions d);
            totalTransactionVolume :=
              tally (amount_if (has_status completed)) (transactions d) |}.

(** What the completed transfers say a user has sent and has received. *)
Definition sent (d : db) (uid : Z) : Z :=
  tally
    (amount_if (fun tx => has_status completed tx && bool_decide (senderId tx = uid)))
    (transactions d).

Definition received (d : db) (uid : Z) : Z :=
  tally
    (amount_if (fun tx => has_status completed tx && bool_decide (receiverId tx = uid)))
    (transactions d).

(** A balance that is the opening balance plus what was received less
    what was sent. *)
Definition reconciled (d0 d : db) : Prop :=
  forall uid u0, users d0 !! uid = Some u0 ->
    balance_of d uid = Some (balance u0 + received d uid - sent d uid).

(** Operations run one after another, with their replies. *)
Fixpoint run (d : db) (os : list operation) : db * list reply :=
  match os with
  | [] => (d, [])
  | o :: rest =>
      let '(d1, r) := exec d o in
      let '(d2, rs) := run d1 rest in
      (d2, r :: rs)
  end.


(** The amount of the transaction a settlement names. *)
Definition settled_amount (d : db) (o : operation) : Z :=
  match o with
  | Transfer _ _ => 0
  | Settle r => default 0 (amount <$> transactions d !! param_id r)
  end.

End Dashboard.

(** * Properties *)

(** ** The assessment engine *)

Module AssessmentFacts.
Import JS Assessment.

(** *** Selecting a session *)

Lemma optionsMap_acc (allOptions : list option_row) :
  forall (m : gmap Z (list client_option)) (q : Z),
  default []
    (foldl
       (fun m opt =>
          let arr := default [] (m !! o_questionId opt) in
          <[o_questionId opt :=
              arr ++ [{| label := o_label opt; optionText := o_optionText opt |}]]> m)
       m allOptions !! q) =
  default [] (m !! q) ++
    (to_client <$> filter (fun o => o_questionId o = q) allOptions).
Proof.
  induction allOptions as [|o rest IH]; intros m q; simpl.
  - by rewrite app_nil_r.
  - rewrite IH, lookup_insert, filter_cons.
    case_decide as Hq.
    + subst q. simpl. by rewrite <- app_assoc.
    + done.
Qed.

Lemma optionsMap_spec (allOptions : list option_row) (q : Z) :
  default [] (optionsMap allOptions !! q) =
  to_client <$> filter (fun o => o_questionId o = q) allOptions.
Proof. unfold optionsMap. by rewrite optionsMap_acc, lookup_empty. Qed.

Lemma options_without_correct (o1 : list option_row) :
  forall (o2 : list option_row) (q : Z),
  without_correct <$> o1 = without_correct <$> o2 ->
  to_client <$> filter (fun o => o_questionId o = q) o1 =
  to_client <$> filter (fun o => o_questionId o = q) o2.
Proof.
  induction o1 as [|a o1 IH]; intros [|b o2] q Heq; try done.
  rewrite !fmap_cons in Heq. injection Heq as Hid Hl Ht Hrest.
  rewrite !filter_cons.
  rewrite Hid. case_decide; simpl; [|by apply IH].
  f_equal; [|by apply IH]. unfold to_client. by rewrite Hl, Ht.
Qed.

Lemma attach_options_question m (l : list question) :
  cq_question <$> (attach_options m <$> l) = l.
Proof.
  induction l as [|q l IH]; [done|]. rewrite !fmap_cons. by rewrite IH.
Qed.

(** C4.  For a pool whose question ids are distinct (they are the primary
    key) and a sort that permutes its input, [GET /test/questions] returns
    questions with pairwise distinct ids, exactly min(20, pool size) of
    them, each one taken from the pool; a pool of fewer than 20 questions
    is returned whole; each returned question carries its options in table
    order as [{ label, optionText }] only, and the reply is the same for
    any two option tables that differ in nothing but the correctness
    flags. *)
Theorem getQuestions_sample (sort_random : list question -> list question) (d : db) :
  (forall l, sort_random l ≡ₚ l) ->
  NoDup (q_id <$> questions d) ->
  let qs := getQuestions sort_random d in
  NoDup (q_id <$> (cq_question <$> qs)) /\
  length qs = Nat.min 20 (length (questions d)) /\
  (length qs <= Nat.min 20 (length (questions d)))%nat /\
  (forall cq, cq ∈ qs -> cq_question cq ∈ questions d) /\
  ((length (questions d) < 20)%nat -> cq_question <$> qs ≡ₚ questions d) /\
  (forall cq, cq ∈ qs ->
     options cq =
       to_client <$>
         filter (fun o => o_questionId o = q_id (cq_question cq)) (questionOptions d)) /\
  (forall d2,
     questions d2 = questions d ->
     without_correct <$> questionOptions d2 = without_correct <$> questionOptions d ->
     getQuestions sort_random d2 = qs).
Proof.
  intros Hperm Hnodup qs.
  assert (cq_question <$> qs = take 20 (sort_random (questions d))) as Hqs
    by apply attach_options_question.
  assert (length qs = Nat.min 20 (length (questions d))) as Hlen.
  { unfold qs, getQuestions, selectedQuestions.
    by rewrite length_fmap, length_take, (Permutation_length (Hperm _)). }
  split; [|split; [exact Hlen|split; [lia|split; [|split; [|split]]]]].
  - rewrite Hqs, fmap_take.
    eapply sublist_NoDup; [|apply sublist_take].
    by rewrite (Hperm (questions d)).
  - intros cq Hcq.
    apply (list_elem_of_fmap_2 cq_question) in Hcq. rewrite Hqs in Hcq.
    apply subseteq_take in Hcq. by rewrite (Hperm (questions d)) in Hcq.
  - intros Hsmall. rewrite Hqs, take_ge; [apply Hperm|].
    rewrite (Permutation_length (Hperm _)). lia.
  - intros cq Hcq. unfold qs, getQuestions in Hcq.
    apply list_elem_of_fmap in Hcq as (q & -> & _).
    unfold attach_options. simpl. apply optionsMap_spec.
  - intros d2 Hq Ho. unfold qs, getQuestions. rewrite Hq.
    apply list_fmap_ext. intros _ q _. unfold attach_options. f_equal.
    rewrite !optionsMap_spec. by apply options_without_correct.
Qed.

Lemma getQuestions_sample_witness :
  let qs := getQuestions reverse quiz0 in
  NoDup (q_id <$> (cq_question <$> qs)) /\ length qs = 3%nat /\
  cq_question <$> qs ≡ₚ questions quiz0.
Proof.
  destruct (getQuestions_sample reverse quiz0) as (Hnd & Hlen & _ & _ & Hall & _).
  - intros l. apply reverse_Permutation.
  - apply (bool_decide_unpack _). by vm_compute.
  - split; [exact Hnd|]. split; [exact Hlen|]. apply Hall. simpl. lia.
Defined.

(** *** Submitting answers *)

Lemma answers_guard (answers : value) :
  negb (truthy answers) || negb (isArray answers)
  || (length (items_of answers) =? 0)%nat =
  match answers with VArr (_ :: _) => false | _ => true end.
Proof.
  destruct answers as [| |b|z|s|[|a items]|fs]; simpl; try done;
    by rewrite orb_true_r.
Qed.

Lemma submit_Submitted coerce d uid answers d' r :
  submit coerce d uid answers = (d', Submitted r) ->
  exists items rs,
    answers = VArr items /\ items ≠ [] /\
    answerResults (correctMap (questionOptions d)) items = Some rs /\
    r_id r = next_result_id d /\
    r_score r = correctCount rs /\
    r_totalQuestions r = Z.of_nat (length items) /\
    r_iqScore r = iqScore (percentage (r_score r) (r_totalQuestions r)) /\
    r_percentage r = Math_round (percentage (r_score r) (r_totalQuestions r)) /\
    insert_userAnswers coerce
      (fst (insert_testResult d uid (r_score r) (r_totalQuestions r) (r_iqScore r)))
      (r_id r) rs = (d', true).
Proof.
  unfold submit. rewrite answers_guard.
  destruct answers as [| | | | |[|a items]|]; try discriminate.
  cbn [items_of].
  destruct (answerResults _ _) as [rs|] eqn:Hrs; [|discriminate].
  cbn [insert_testResult].
  destruct (insert_userAnswers _ _ _ _) as [d2 [|]] eqn:Hins; [|discriminate].
  intros [= <- <-]. exists (a :: items), rs. by repeat split.
Qed.

Lemma correctCount_bounds rs : 0 <= correctCount rs <= Z.of_nat (length rs).
Proof.
  unfold correctCount.
  pose proof (length_filter (fun r => ar_isCorrect r = true) rs). lia.
Qed.

Lemma answerResults_length cm items rs :
  answerResults cm items = Some rs -> length rs = length items.
Proof. intros H%mapM_Some_1%Forall2_length. done. Qed.

(** C5 as amended.  [POST /test/submit] answers 400, a validation error,
    exactly when [answers] is not a non-empty array (absent, null, not an
    array, or empty), and then no row is written; the entries of a
    non-empty array are not inspected before scoring. *)
Theorem submit_answers_required coerce d uid answers :
  (snd (submit coerce d uid answers) = AnswersRequired <->
   ~ exists a items, answers = VArr (a :: items)) /\
  (reply_error (snd (submit coerce d uid answers)) = Some ValidationError ->
   fst (submit coerce d uid answers) = d /\
   testResults (fst (submit coerce d uid answers)) = testResults d /\
   userAnswers (fst (submit coerce d uid answers)) = userAnswers d).
Proof.
  assert ((~ exists a items, answers = VArr (a :: items)) ->
          submit coerce d uid answers = (d, AnswersRequired)) as Hrej.
  { intros Hno. unfold submit. rewrite answers_guard.
    destruct answers as [| | | | |[|a items]|]; try done.
    destruct Hno. by exists a, items. }
  assert ((exists a items, answers = VArr (a :: items)) ->
          snd (submit coerce d uid answers) ≠ AnswersRequired) as Hacc.
  { intros (a & items & ->). unfold submit. rewrite answers_guard.
    cbn [items_of].
    destruct (answerResults _ _) as [rs|]; [|done].
    cbn [insert_testResult].
    by destruct (insert_userAnswers _ _ _ _) as [d2 [|]]. }
  assert (snd (submit coerce d uid answers) = AnswersRequired ->
          ~ exists a items, answers = VArr (a :: items)) as Hback
    by (intros Hr Hex; by apply Hacc in Hex).
  split; [split; [exact Hback | by intros ->%Hrej]|].
  intros Herr.
  assert (snd (submit coerce d uid answers) = AnswersRequired) as Hr
    by (by destruct (snd (submit coerce d uid answers))).
  by rewrite (Hrej (Hback Hr)).
Qed.

Lemma submit_answers_required_witness :
  submit refuse_other quiz0 7 (VArr []) = (quiz0, AnswersRequired) /\
  submit refuse_other quiz0 7 VUndefined = (quiz0, AnswersRequired).
Proof.
  split.
  - destruct (submit_answers_required refuse_other quiz0 7 (VArr [])) as [_ Hd].
    destruct Hd as (Hd & _); reflexivity.
  - destruct (submit_answers_required refuse_other quiz0 7 VUndefined) as [_ Hd].
    destruct Hd as (Hd & _); reflexivity.
Defined.

(** C5, as stated, fails: an entry without [selectedAnswer] is scored (as
    incorrect here), the reply is a success and both a [test_results] and a
    [user_answers] row are written; an entry without [questionId] is scored
    too, and the [test_results] row is written before the insert of the
    answer row fails with a server error. *)
Lemma submit_accepts_malformed_entries :
  (exists d' r,
     submit refuse_other quiz0 7 (VArr [unanswered 1]) = (d', Submitted r) /\
     length (testResults d') = 1%nat /\ length (userAnswers d') = 1%nat) /\
  (exists d',
     submit refuse_other quiz0 7 (VArr [VObj [("selectedAnswer", VStr "D")]])
       = (d', ServerError) /\
     length (testResults d') = 1%nat).
Proof. split; [eexists _, _ | eexists]; by vm_compute. Qed.

(** *** Scoring one entry *)

(** An entry that carries a [selectedAnswer] is correct exactly when its
    [questionId] is a number with an entry in [correctMap] equal to the
    selected value. *)
Lemma score_answer_present cm entry res :
  score_answer cm entry = Some res ->
  ar_selectedAnswer res ≠ VUndefined ->
  (ar_isCorrect res = true <->
   exists q lbl,
     ar_questionId res = VNum q /\ cm !! q = Some lbl /\
     strict_eq (ar_selectedAnswer res) lbl = true).
Proof.
  unfold score_answer. intros Hres Hsel.
  destruct (get entry "questionId") as [qid|]; [|discriminate].
  destruct (get entry "selectedAnswer") as [sel|]; [|discriminate].
  injection Hres as <-. simpl in *. unfold Map_get. split.
  - intros Heq. destruct qid as [| | |q| | |]; simpl in Heq;
      try (by destruct sel).
    destruct (cm !! q) as [lbl|] eqn:Hq; simpl in Heq; [|by destruct sel].
    by exists q, lbl.
  - intros (q & lbl & -> & Hq & Heq). by rewrite Hq.
Qed.

(** C2: the failing input.  Question 3 has no option flagged correct, so
    [correctMap] has no entry for it; an entry for question 3 that carries
    no [selectedAnswer] compares [undefined === undefined] and is counted
    correct: score 1 of 1, IQ 150.  (An entry for an id that names no
    question is scored incorrect, but the request then ends in a server
    error when the answer row violates the foreign key, after the result
    row was written.) *)
Lemma submit_counts_missing_answer_correct :
  correctMap (questionOptions quiz0) !! 3 = None /\
  (exists d' r,
     submit refuse_other quiz0 7 (VArr [unanswered 3]) = (d', Submitted r) /\
     r_score r = 1 /\ r_totalQuestions r = 1 /\ r_iqScore r = 150 /\
     userAnswers d' =
       [{| ua_testResultId := 1; ua_questionId := 3; ua_isCorrect := true |}]) /\
  (exists d',
     submit refuse_other quiz0 7 (VArr [answer 999 "A"]) = (d', ServerError) /\
     testResults d' =
       [{| tr_id := 1; tr_userId := 7; tr_score := 0; tr_totalQuestions := 1;
           tr_iqScore := 70 |}] /\
     userAnswers d' = []).
Proof.
  split; [by vm_compute|]. split; [eexists _, _ | eexists]; by vm_compute.
Qed.

(** *** Repeated questions *)

Lemma score_answer_label cm q lbl sel :
  cm !! q = Some (VStr lbl) ->
  score_answer cm (answer q sel) =
    Some {| ar_questionId := VNum q; ar_selectedAnswer := VStr sel;
            ar_isCorrect := bool_decide (sel = lbl) |}.
Proof.
  intros Hq. unfold score_answer, answer. cbn. rewrite Hq. cbn.
  do 2 f_equal. destruct (String.eqb_spec sel lbl) as [-> | Hne].
  - by rewrite bool_decide_eq_true_2.
  - by rewrite bool_decide_eq_false_2.
Qed.

Lemma answerResults_snoc cm items rs a res :
  answerResults cm items = Some rs ->
  score_answer cm a = Some res ->
  answerResults cm (items ++ [a]) = Some (rs ++ [res]).
Proof.
  unfold answerResults. rewrite !mapM_Some. intros Hrs Ha.
  apply Forall2_app; [done|]. by repeat constructor.
Qed.

Lemma answerResults_fmap {A} cm (f : A -> value) (g : A -> answer_result) l :
  (forall x, score_answer cm (f x) = Some (g x)) ->
  answerResults cm (f <$> l) = Some (g <$> l).
Proof.
  intros Hfg. unfold answerResults. apply mapM_Some.
  induction l as [|x l IH]; simpl; by constructor.
Qed.

Lemma correctCount_snoc rs res :
  correctCount (rs ++ [res]) =
  correctCount rs + (if ar_isCorrect res then 1 else 0).
Proof.
  unfold correctCount. rewrite filter_app, length_app, filter_cons, filter_nil.
  case_decide as Hc; destruct (ar_isCorrect res); simpl; try done; lia.
Qed.

Lemma correctCount_labels q lbl (sels : list string) :
  correctCount
    ((fun sel => {| ar_questionId := VNum q; ar_selectedAnswer := VStr sel;
                    ar_isCorrect := bool_decide (sel = lbl) |}) <$> sels) =
  Z.of_nat (length (filter (fun sel => sel = lbl) sels)).
Proof.
  unfold correctCount. f_equal.
  induction sels as [|sel sels IH]; [done|].
  rewrite fmap_cons, !filter_cons. simpl.
  destruct (decide (sel = lbl)) as [Heq | Hne].
  - rewrite bool_decide_eq_true_2 by done.
    rewrite decide_True by done. simpl. by rewrite IH.
  - rewrite bool_decide_eq_false_2 by done.
    rewrite decide_False by done. exact IH.
Qed.

Lemma insert_userAnswers_labels coerce rid q lbl (sels : list string) :
  forall d,
  q ∈ q_id <$> questions d ->
  insert_userAnswers coerce d rid
    ((fun sel => {| ar_questionId := VNum q; ar_selectedAnswer := VStr sel;
                    ar_isCorrect := bool_decide (sel = lbl) |}) <$> sels) =
  ({| questions := questions d;
      questionOptions := questionOptions d;
      testResults := testResults d;
      userAnswers := userAnswers d ++
        ((fun sel => {| ua_testResultId := rid; ua_questionId := q;
                        ua_isCorrect := bool_decide (sel = lbl) |}) <$> sels);
      next_result_id := next_result_id d |}, true).
Proof.
  induction sels as [|sel sels IH]; intros d Hq; simpl.
  - rewrite app_nil_r. by destruct d.
  - unfold insert_userAnswer. simpl. rewrite bool_decide_eq_true_2 by done.
    rewrite IH by done. simpl. by rewrite <- app_assoc.
Qed.

Lemma count_label_replicate (lbl sel : string) n :
  Z.of_nat (length (filter (fun x => x = lbl) (replicate n sel))) =
  if bool_decide (sel = lbl) then Z.of_nat n else 0.
Proof.
  case_bool_decide as Hsel.
  - f_equal. induction n as [|n IH]; [done|]. simpl.
    rewrite filter_cons, decide_True by done. simpl. by rewrite IH.
  - replace (filter (fun x => x = lbl) (replicate n sel)) with (@nil string);
      [done|].
    induction n as [|n IH]; [done|]. simpl.
    by rewrite filter_cons, decide_False.
Qed.

(** C10.  Let [q] be a stored question whose correct label is [lbl].  An
    entry for [q] is scored against [lbl] whatever the other entries are:
    appending an entry [(q, sel)] to any list that scores, whether or not
    [q] already occurs in it, appends one result, flagged correct exactly
    when [sel] is [lbl], raises the count of correct answers by one when
    [sel] is [lbl] and leaves it otherwise, and lengthens the list by one.
    A submission that names [q] in every entry, with the labels [sels], is
    accepted; its score is the number of entries whose label is [lbl], its
    [totalQuestions] the number of entries, and it writes one result row
    and one answer row for [q] per entry, flagged correct exactly when the
    entry's label is [lbl].  So [n] entries with the label [lbl] give a
    score of [n] out of [n], and [n] entries with another label give a
    score of 0 out of [n]. *)
Theorem repeated_question_counts_each_time coerce d uid q lbl :
  q ∈ q_id <$> questions d ->
  correctMap (questionOptions d) !! q = Some (VStr lbl) ->
  let cm := correctMap (questionOptions d) in
  let scored := fun sel =>
    {| ar_questionId := VNum q; ar_selectedAnswer := VStr sel;
       ar_isCorrect := bool_decide (sel = lbl) |} in
  (forall items rs sel,
     answerResults cm items = Some rs ->
     answerResults cm (items ++ [answer q sel]) = Some (rs ++ [scored sel]) /\
     correctCount (rs ++ [scored sel]) =
       correctCount rs + (if bool_decide (sel = lbl) then 1 else 0) /\
     length (items ++ [answer q sel]) = S (length items)) /\
  (forall sels, sels ≠ [] ->
     exists d' r,
       submit coerce d uid (VArr (answer q <$> sels)) = (d', Submitted r) /\
       r_score r = Z.of_nat (length (filter (fun sel => sel = lbl) sels)) /\
       r_totalQuestions r = Z.of_nat (length sels) /\
       length (testResults d') = S (length (testResults d)) /\
       userAnswers d' =
         userAnswers d ++
           ((fun sel => {| ua_testResultId := next_result_id d;
                           ua_questionId := q;
                           ua_isCorrect := bool_decide (sel = lbl) |}) <$> sels)) /\
  (forall n sel, (0 < n)%nat ->
     exists d' r,
       submit coerce d uid (VArr (replicate n (answer q sel))) = (d', Submitted r) /\
       r_score r = (if bool_decide (sel = lbl) then Z.of_nat n else 0) /\
       r_totalQuestions r = Z.of_nat n /\
       userAnswers d' =
         userAnswers d ++
           replicate n {| ua_testResultId := next_result_id d;
                          ua_questionId := q;
                          ua_isCorrect := bool_decide (sel = lbl) |}).
Proof.
  intros Hq Hcm cm scored.
  assert (forall sels, sels ≠ [] ->
     exists d' r,
       submit coerce d uid (VArr (answer q <$> sels)) = (d', Submitted r) /\
       r_score r = Z.of_nat (length (filter (fun sel => sel = lbl) sels)) /\
       r_totalQuestions r = Z.of_nat (length sels) /\
       length (testResults d') = S (length (testResults d)) /\
       userAnswers d' =
         userAnswers d ++
           ((fun sel => {| ua_testResultId := next_result_id d;
                           ua_questionId := q;
                           ua_isCorrect := bool_decide (sel = lbl) |}) <$> sels))
    as Hall.
  { intros sels Hne. unfold submit. rewrite answers_guard.
    cbn [items_of]. rewrite length_fmap.
    destruct sels as [|sel sels]; [done|]. cbn [length Nat.eqb].
    fold cm.
    rewrite (answerResults_fmap cm (answer q) scored (sel :: sels))
      by (intros x; by apply score_answer_label).
    unfold scored. rewrite correctCount_labels.
    cbn [insert_testResult].
    rewrite (insert_userAnswers_labels coerce _ q lbl (sel :: sels)) by done.
    eexists _, _. split; [reflexivity|]. simpl.
    rewrite length_app. simpl. repeat split. lia. }
  split; [|split; [exact Hall|]].
  - intros items rs sel Hrs.
    split; [apply answerResults_snoc; [done | by apply score_answer_label]|].
    split; [by rewrite correctCount_snoc|].
    rewrite length_app. simpl. lia.
  - intros n sel Hn.
    destruct (Hall (replicate n sel)) as (d' & r & Hsub & Hs & Ht & _ & Hrows).
    { destruct n; [lia | done]. }
    rewrite fmap_replicate in Hsub. rewrite fmap_replicate in Hrows.
    rewrite length_replicate in Ht.
    exists d', r. split; [done|]. split; [|by split].
    by rewrite Hs, count_label_replicate.
Qed.

Lemma repeated_question_counts_each_time_witness :
  exists d' r,
    submit refuse_other quiz0 7 (VArr (answer 1 <$> ["D"; "A"; "D"]))
      = (d', Submitted r) /\
    r_score r = 2 /\ r_totalQuestions r = 3 /\
    ua_isCorrect <$> userAnswers d' = [true; false; true].
Proof.
  destruct (repeated_question_counts_each_time refuse_other quiz0 7 1 "D")
    as (_ & Hsels & _);
    [apply (bool_decide_unpack _); by vm_compute | by vm_compute |].
  destruct (Hsels ["D"; "A"; "D"]) as (d' & r & Hsub & Hs & Ht & _ & Hrows);
    [done|].
  exists d', r. split; [exact Hsub|]. split; [exact Hs|]. split; [exact Ht|].
  by rewrite Hrows.
Defined.

(** *** The banding *)

Lemma bands_checked_upto_100 :
  forallb (fun n => forallb (fun k => bands_checked k n) (seqZ 0 (n + 1)))
    (seqZ 1 100) = true.
Proof. vm_compute. reflexivity. Qed.

Lemma bands_checked_le_100 k n :
  0 <= k <= n -> 1 <= n <= 100 -> bands_checked k n = true.
Proof.
  intros Hk Hn. pose proof bands_checked_upto_100 as H.
  rewrite forallb_forall in H. specialize (H n).
  rewrite forallb_forall in H.
  apply H; apply list_elem_of_In, elem_of_seqZ; lia.
Qed.

(** C3 as amended.  For every accepted submission, 0 <= score <=
    totalQuestions and totalQuestions is positive; [iqScore] is the banding
    evaluated in binary64 arithmetic on [(score / totalQuestions) * 100],
    and the returned percentage is [Math.round] of that number.  For up to
    100 answers the score is the value of the banding over the rationals or
    one below it, likewise the rounded percentage, and both are equal to
    the exact values whenever 100 * score / totalQuestions is a whole
    number (so at 0, 25, 50, 75, 90 and 100 per cent).  At the percentages
    0, 24.999, 25, 49.999, 50, 74.999, 75, 89.999, 90 and 100, taken out of
    100000 answers, the score is the exact value. *)
Theorem submit_score_and_bands coerce d uid answers d' r :
  submit coerce d uid answers = (d', Submitted r) ->
  let k := r_score r in
  let n := r_totalQuestions r in
  0 <= k <= n /\ 0 < n /\
  r_iqScore r = iqScore (percentage k n) /\
  r_percentage r = Math_round (percentage k n) /\
  (n <= 100 ->
     spec_iqScore (spec_percentage k n) - 1 <= r_iqScore r
       <= spec_iqScore (spec_percentage k n) /\
     spec_round (spec_percentage k n) - 1 <= r_percentage r
       <= spec_round (spec_percentage k n) /\
     ((100 * k) mod n = 0 ->
        r_iqScore r = spec_iqScore (spec_percentage k n) /\
        r_percentage r = spec_round (spec_percentage k n))) /\
  Forall
    (fun k => iqScore (percentage k 100000) =
              spec_iqScore (spec_percentage k 100000))
    boundary_scores.
Proof.
  intros Hsub k n.
  apply submit_Submitted in Hsub
    as (items & rs & _ & Hne & Hrs & _ & Hk & Hn & Hiq & Hp & _).
  apply answerResults_length in Hrs.
  pose proof (correctCount_bounds rs) as Hb.
  assert (0 <= k <= n) as Hkn by (unfold k, n; lia).
  assert (0 < n) as Hpos.
  { unfold n. rewrite Hn. destruct items; [done|]. simpl. lia. }
  split; [exact Hkn|]. split; [exact Hpos|].
  split; [exact Hiq|]. split; [exact Hp|]. split.
  - intros Hle. fold k n in Hiq, Hp. rewrite Hiq, Hp.
    pose proof (bands_checked_le_100 k n Hkn ltac:(lia)) as Hc.
    unfold bands_checked, iq_within_one, round_within_one, iq_exact_on_whole in Hc.
    apply andb_prop in Hc as [[[H1 H2]%andb_prop [H3 H4]%andb_prop]%andb_prop Hw].
    apply Z.leb_le in H1, H2, H3, H4.
    split; [lia|]. split; [lia|]. intros Hmod.
    apply Z.eqb_eq in Hmod. rewrite Hmod in Hw.
    apply andb_prop in Hw as [Hw1 Hw2]. by apply Z.eqb_eq in Hw1, Hw2.
  - unfold boundary_scores. repeat constructor; by vm_compute.
Qed.

Lemma submit_score_and_bands_witness :
  exists d' r,
    submit refuse_other quiz0 7 (VArr [answer 1 "D"; answer 2 "A"; answer 3 "11"])
      = (d', Submitted r) /\
    r_score r = 1 /\ r_totalQuestions r = 3 /\
    r_iqScore r = iqScore (percentage 1 3) /\
    r_percentage r = Math_round (percentage 1 3).
Proof.
  eexists _, _. split; [by vm_compute|].
  split; [reflexivity|]. split; [reflexivity|].
  match goal with
  | |- r_iqScore ?r = _ /\ _ =>
      destruct (submit_score_and_bands refuse_other quiz0 7
                  (VArr [answer 1 "D"; answer 2 "A"; answer 3 "11"])
                  (fst (submit refuse_other quiz0 7
                     (VArr [answer 1 "D"; answer 2 "A"; answer 3 "11"]))) r)
        as (_ & _ & Hiq & Hp & _); [by vm_compute | by split]
  end.
Defined.

(** C3, as stated, fails: one correct answer out of three is 33.33...
    per cent, for which the banding over the rationals gives
    85 + floor(8.33... * 0.6) = 90, while the handler computes
    33.33333333333333 and answers 89; and 23 correct out of 40 is 57.5 per
    cent, rounded to 58, while the handler computes 57.49999999999999 and
    returns 57.  Reading [100 * score / totalQuestions] itself in binary64
    gives 90 and 58 as well. *)
Lemma iqScore_not_the_exact_banding :
  (exists d' r,
     submit refuse_other quiz0 7
       (VArr [answer 1 "D"; answer 2 "A"; answer 3 "11"]) = (d', Submitted r) /\
     r_score r = 1 /\ r_totalQuestions r = 3 /\
     r_iqScore r = 89 /\
     spec_iqScore (spec_percentage (r_score r) (r_totalQuestions r)) = 90 /\
     iqScore (percentage_as_written (r_score r) (r_totalQuestions r)) = 90) /\
  Math_round (percentage 23 40) = 57 /\
  spec_round (spec_percentage 23 40) = 58 /\
  Math_round (percentage_as_written 23 40) = 58.
Proof.
  split; [|by vm_compute].
  eexists _, _. split; [by vm_compute|]. by vm_compute.
Qed.

End AssessmentFacts.

(** ** The ledger *)

Module LedgerFacts.
Import Ledger.

(** *** Statements *)

Lemma update_balance_Some d uid delta d' :
  update_balance d uid delta = Some d' ->
  transactions d' = transactions d /\ next_tx_id d' = next_tx_id d /\
  ((users d !! uid = None /\ users d' = users d) \/
   (exists u, users d !! uid = Some u /\
      decimal_10_2 (balance u + delta) = true /\
      users d' = <[uid := {| balance := balance u + delta |}]> (users d))).
Proof.
  unfold update_balance. intros H.
  destruct (users d !! uid) as [u|] eqn:Hu.
  - destruct (decimal_10_2 (balance u + delta)) eqn:Hok; [|discriminate].
    injection H as <-. simpl. repeat split. right. by exists u.
  - injection H as <-. repeat split. by left.
Qed.

Lemma update_balance_in_range d uid delta u :
  users d !! uid = Some u ->
  decimal_10_2 (balance u + delta) = true ->
  update_balance d uid delta =
    Some (set_users d (<[uid := {| balance := balance u + delta |}]> (users d))).
Proof. intros Hu Hok. unfold update_balance. by rewrite Hu, Hok. Qed.

Lemma decimal_10_2_spec z :
  decimal_10_2 z = true <-> -9999999999 <= z <= 9999999999.
Proof.
  unfold decimal_10_2. split.
  - intros [H1 H2]%andb_prop. apply Z.leb_le in H1, H2. lia.
  - intros [H1 H2]. apply andb_true_intro. split; apply Z.leb_le; lia.
Qed.

(** *** The invariant *)

Lemma well_formed_initial d : initial d -> well_formed d.
Proof.
  intros (Ht & Hn & Hb). split; [exact Hb | | |];
    intros tid tx; rewrite Ht, lookup_empty; discriminate.
Qed.

Lemma well_formed_update_balance d uid delta d' :
  well_formed d -> update_balance d uid delta = Some d' -> well_formed d'.
Proof.
  intros [Hb Hp Ha Hf] H.
  apply update_balance_Some in H as (Ht & Hn & [[_ Hu] | (u & Hu & Hok & Hus)]).
  - split; rewrite ?Ht, ?Hn, ?Hu; auto.
  - split; rewrite ?Ht, ?Hn, ?Hus; auto.
    + intros k v. rewrite lookup_insert. case_decide.
      * intros [= <-]. exact Hok.
      * apply Hb.
    + intros tid tx Htx. destruct (Hp tid tx Htx) as (Hne & Hs & Hr).
      split; [exact Hne|]. rewrite !lookup_insert_is_Some'. tauto.
Qed.

Lemma lookup_update_status d tid s k tx' :
  transactions (update_status d tid s) !! k = Some tx' ->
  exists tx, transactions d !! k = Some tx /\
    senderId tx' = senderId tx /\ receiverId tx' = receiverId tx /\
    amount tx' = amount tx /\
    (tx' = tx \/ (k = tid /\ status tx' = s)).
Proof.
  unfold update_status. simpl. rewrite lookup_alter. case_decide as Hk.
  - subst k. destruct (transactions d !! tid) as [tx|]; simpl; [|discriminate].
    intros [= <-]. exists tx. simpl. by repeat split; [..|right].
  - intros Htx. exists tx'. by repeat split; [..|left].
Qed.

Lemma well_formed_update_status d tid s :
  well_formed d -> well_formed (update_status d tid s).
Proof.
  intros [Hb Hp Ha Hf].
  split; [exact Hb | | |]; intros k tx' Hk;
    apply lookup_update_status in Hk as (tx & Htx & Hs & Hr & Hamt & _).
  - rewrite Hs, Hr. exact (Hp k tx Htx).
  - rewrite Hamt. exact (Ha k tx Htx).
  - exact (Hf k tx Htx).
Qed.

Lemma well_formed_requestTransfer d u b :
  well_formed d -> well_formed (fst (requestTransfer d u b)).
Proof.
  intros Hwf. unfold requestTransfer.
  destruct (transfer_valid b) as [[rid a]|] eqn:Hv; [|done].
  destruct (id u =? rid) eqn:Hself; [done|]. apply Z.eqb_neq in Hself.
  destruct (users d !! rid) as [rcv|] eqn:Hr; [|done].
  destruct (users d !! id u) as [snd|] eqn:Hs; [|done].
  destruct (balance snd <? a) eqn:Hbal; [done|]. apply Z.ltb_ge in Hbal.
  unfold insert_transaction. simpl. rewrite Hr, Hs. simpl.
  destruct (decimal_10_2 a) eqn:Hok; [|done]. simpl.
  assert (1 <= a) as Hpos.
  { unfold transfer_valid in Hv.
    destruct (body_receiverId b), (body_amount b); try discriminate.
    destruct (1 <=? _) eqn:Hle; [|discriminate]. injection Hv as <- <-.
    by apply Z.leb_le. }
  apply decimal_10_2_spec in Hok.
  destruct Hwf as [Hb Hp Ha Hf].
  split; simpl; [exact Hb | | |]; intros k tx; rewrite lookup_insert;
    case_decide.
  - intros [= <-]. simpl. rewrite Hr, Hs. eauto.
  - apply Hp.
  - intros [= <-]. simpl. lia.
  - apply Ha.
  - intros _. lia.
  - intros Hk. apply Hf in Hk. lia.
Qed.

Lemma well_formed_adminSettle d r :
  well_formed d -> well_formed (fst (adminSettle d r)).
Proof.
  intros Hwf. unfold adminSettle.
  case_bool_decide; [done|].
  destruct (status_valid (body_status r)) as [s|]; [|done]. simpl.
  destruct (transactions d !! param_id r) as [tx|]; [|done].
  case_bool_decide; [done|].
  case_bool_decide; [|by apply well_formed_update_status].
  destruct (users d !! senderId tx) as [sender|]; [|done].
  destruct (balance sender <? amount tx); [done|].
  destruct (update_balance d _ _) as [d1|] eqn:Hd1; [|done].
  pose proof (well_formed_update_balance _ _ _ _ Hwf Hd1) as Hwf1.
  destruct (update_balance d1 _ _) as [d2|] eqn:Hd2; [|done].
  apply well_formed_update_status.
  by eapply well_formed_update_balance.
Qed.

Lemma well_formed_exec d o : well_formed d -> well_formed (fst (exec d o)).
Proof.
  destruct o; [apply well_formed_requestTransfer | apply well_formed_adminSettle].
Qed.

Lemma reachable_well_formed d : reachable d -> well_formed d.
Proof.
  induction 1 as [d Hi | d o _ IH];
    [by apply well_formed_initial | by apply well_formed_exec].
Qed.

(** *** The handler and its statements *)

Lemma adminSettle_run d r :
  settle_run 5 d (settle_begin r) =
    (fst (adminSettle d r), Replied (snd (adminSettle d r))).
Proof.
  unfold adminSettle, settle_begin.
  case_bool_decide; [done|].
  destruct (status_valid (body_status r)) as [s|]; [|done].
  cbn [settle_run settle_step].
  destruct (transactions d !! param_id r) as [tx|]; [|done].
  case_bool_decide; [done|].
  case_bool_decide; [|done].
  cbn [settle_run settle_step].
  destruct (users d !! senderId tx) as [sender|]; [|done].
  destruct (balance sender <? amount tx); [done|].
  cbn [settle_run settle_step].
  destruct (update_balance d _ _) as [d1|]; [|done].
  cbn [settle_run settle_step].
  by destruct (update_balance d1 _ _) as [d2|].
Qed.

Lemma ledger0_reachable : reachable ledger0.
Proof.
  apply reachable_initial. repeat split.
  intros uid u. unfold ledger0. simpl.
  rewrite !lookup_insert. repeat case_decide; try by intros [= <-].
  by intros [_ <-]%lookup_singleton_Some.
Qed.

Lemma ledger1_reachable : reachable ledger1.
Proof. apply (reachable_exec ledger0 (Transfer user1 transfer_30)), ledger0_reachable. Qed.

(** *** Requesting a transfer *)

Lemma transfer_valid_Some b rid a :
  transfer_valid b = Some (rid, a) <->
  body_receiverId b = Some rid /\ body_amount b = Some a /\ 0 < a.
Proof.
  unfold transfer_valid.
  destruct (body_receiverId b) as [rid'|], (body_amount b) as [a'|];
    try (split; [discriminate | by intros (? & ? & ?)]).
  destruct (1 <=? a') eqn:Hle.
  - apply Z.leb_le in Hle. split.
    + intros [= <- <-]. repeat split. lia.
    + by intros ([= <-] & [= <-] & _).
  - apply Z.leb_gt in Hle. split; [discriminate|].
    intros ([= <-] & [= <-] & ?). lia.
Qed.

Lemma requestTransfer_created d u b d' tid :
  requestTransfer d u b = (d', TransferCreated tid) ->
  tid = next_tx_id d /\ users d' = users d /\
  exists rid a,
    transfer_valid b = Some (rid, a) /\ rid ≠ id u /\
    transactions d' =
      <[tid := {| senderId := id u; receiverId := rid; amount := a;
                  status := pending |}]> (transactions d).
Proof.
  unfold requestTransfer.
  destruct (transfer_valid b) as [[rid a]|]; [|discriminate].
  destruct (id u =? rid) eqn:Hself; [discriminate|]. apply Z.eqb_neq in Hself.
  destruct (users d !! rid); [|discriminate].
  destruct (users d !! id u) as [sender|]; [|discriminate].
  destruct (balance sender <? a); [discriminate|].
  unfold insert_transaction.
  destruct (_ && _); [|discriminate].
  intros [= <- <-]. simpl. repeat split. exists rid, a. by repeat split.
Qed.

(** C6.  [POST /transactions/transfer] on a reachable ledger: an amount of
    zero or less, and a receiver equal to the sender, are each turned down
    as a validation error; past validation an unknown receiver is a
    not-found error, and past that a sender balance below the amount is an
    insufficient-funds error; whatever else holds, a request naming an
    unknown receiver or exceeding the sender's balance is rejected; a
    rejected request changes no table.  A request that passes all four
    checks is accepted, and an accepted request
    adds exactly one row, with status [pending] and a fresh id, to
    [transactions] and leaves every balance as it was. *)
Theorem requestTransfer_outcomes d u b :
  reachable d ->
  (forall a, body_amount b = Some a -> a <= 0 ->
     fails_with ValidationError d (requestTransfer d u b)) /\
  (body_receiverId b = Some (id u) ->
     fails_with ValidationError d (requestTransfer d u b)) /\
  (forall rid a,
     body_receiverId b = Some rid -> body_amount b = Some a -> 0 < a ->
     rid ≠ id u -> users d !! rid = None ->
     fails_with NotFoundError d (requestTransfer d u b)) /\
  (forall rid a sender,
     body_receiverId b = Some rid -> body_amount b = Some a -> 0 < a ->
     rid ≠ id u -> is_Some (users d !! rid) ->
     users d !! id u = Some sender -> balance sender < a ->
     fails_with InsufficientFundsError d (requestTransfer d u b)) /\
  (forall rid a,
     body_receiverId b = Some rid -> body_amount b = Some a ->
     users d !! rid = None \/
     (exists sender, users d !! id u = Some sender /\ balance sender < a) ->
     exists k, fails_with k d (requestTransfer d u b)) /\
  (forall rid a sender,
     body_receiverId b = Some rid -> body_amount b = Some a -> 0 < a ->
     rid ≠ id u -> is_Some (users d !! rid) ->
     users d !! id u = Some sender -> a <= balance sender ->
     snd (requestTransfer d u b) = TransferCreated (next_tx_id d)) /\
  (forall d' tid, requestTransfer d u b = (d', TransferCreated tid) ->
     users d' = users d /\ transactions d !! tid = None /\
     exists rid a,
       body_receiverId b = Some rid /\ body_amount b = Some a /\
       transactions d' =
         <[tid := {| senderId := id u; receiverId := rid; amount := a;
                     status := pending |}]> (transactions d)).
Proof.
  intros Hwf%reachable_well_formed.
  split; [|split; [|split; [|split; [|split; [|split]]]]].
  - intros a Ha Hle. unfold requestTransfer.
    destruct (transfer_valid b) as [[rid a']|] eqn:Hv; [|done].
    apply transfer_valid_Some in Hv as (_ & Ha' & ?). simplify_eq. lia.
  - intros Hr. unfold requestTransfer.
    destruct (transfer_valid b) as [[rid a']|] eqn:Hv; [|done].
    apply transfer_valid_Some in Hv as (Hr' & _ & _). simplify_eq.
    by rewrite Z.eqb_refl.
  - intros rid a Hr Ha Hpos Hne Hnone.
    assert (transfer_valid b = Some (rid, a)) as Hv
      by by apply transfer_valid_Some.
    unfold requestTransfer. rewrite Hv.
    destruct (id u =? rid) eqn:Hself; [apply Z.eqb_eq in Hself; congruence|].
    by rewrite Hnone.
  - intros rid a sender Hr Ha Hpos Hne [rcv Hrcv] Hs Hlt.
    assert (transfer_valid b = Some (rid, a)) as Hv
      by by apply transfer_valid_Some.
    unfold requestTransfer. rewrite Hv.
    destruct (id u =? rid) eqn:Hself; [apply Z.eqb_eq in Hself; congruence|].
    rewrite Hrcv, Hs. apply Z.ltb_lt in Hlt. by rewrite Hlt.
  - intros rid a Hr Ha Hbad. unfold requestTransfer.
    destruct (transfer_valid b) as [[rid' a']|] eqn:Hv;
      [|by exists ValidationError].
    apply transfer_valid_Some in Hv as (Hr' & Ha' & _). simplify_eq.
    destruct (id u =? rid) eqn:Hself; [by exists ValidationError|].
    destruct (users d !! rid) as [rcv|] eqn:Hrcv; [|by exists NotFoundError].
    destruct Hbad as [? | (sender & Hs & Hlt)]; [done|].
    rewrite Hs. apply Z.ltb_lt in Hlt. rewrite Hlt.
    by exists InsufficientFundsError.
  - intros rid a sender Hr Ha Hpos Hne [rcv Hrcv] Hs Hle.
    assert (transfer_valid b = Some (rid, a)) as Hv
      by by apply transfer_valid_Some.
    unfold requestTransfer. rewrite Hv.
    destruct (id u =? rid) eqn:Hself; [apply Z.eqb_eq in Hself; congruence|].
    rewrite Hrcv, Hs. apply Z.ltb_ge in Hle as Hge. rewrite Hge.
    unfold insert_transaction. simpl. rewrite Hrcv, Hs. simpl.
    pose proof (wf_balance d Hwf _ _ Hs) as Hb%decimal_10_2_spec.
    assert (decimal_10_2 a = true) as -> by (apply decimal_10_2_spec; lia).
    done.
  - intros d' tid Hok.
    apply requestTransfer_created in Hok as (-> & Hu & rid & a & Hv & _ & Ht).
    apply transfer_valid_Some in Hv as (Hr & Ha & _).
    split; [exact Hu|]. split.
    + destruct (transactions d !! next_tx_id d) as [tx|] eqn:Htx; [|done].
      apply (wf_fresh d Hwf) in Htx. lia.
    + by exists rid, a.
Qed.

Lemma requestTransfer_outcomes_witness :
  fails_with ValidationError ledger0
    (requestTransfer ledger0 user1
       {| body_receiverId := Some 2; body_amount := Some 0 |}) /\
  snd (requestTransfer ledger0 user1 transfer_30) = TransferCreated 1.
Proof.
  split.
  - apply (requestTransfer_outcomes ledger0 user1 _ ledger0_reachable) with (a := 0);
      [reflexivity | lia].
  - destruct (requestTransfer_outcomes ledger0 user1 transfer_30 ledger0_reachable)
      as (_ & _ & _ & _ & _ & Hok & _).
    apply (Hok 2 3000 {| balance := 5000 |});
      [reflexivity | reflexivity | lia | discriminate | by eexists | reflexivity
      | simpl; lia].
Defined.

(** *** Settling *)

Lemma alter_lookup_insert {A} (f : A -> A) (m : gmap Z A) i x :
  m !! i = Some x -> alter f i m = <[i := f x]> m.
Proof.
  intros Hi. apply map_eq. intros j.
  rewrite lookup_alter, lookup_insert. case_decide; [|done].
  subst j. by rewrite Hi.
Qed.

Lemma adminSettle_keeps_terminal d r tid tx :
  transactions d !! tid = Some tx -> status tx ≠ pending ->
  transactions (fst (adminSettle d r)) !! tid = Some tx.
Proof.
  intros Htx Hterm. unfold adminSettle.
  case_bool_decide; [done|].
  destruct (status_valid (body_status r)) as [s|]; [|done]. simpl.
  destruct (transactions d !! param_id r) as [tx0|] eqn:Htx0; [|done].
  case_bool_decide as Hpend; [done|].
  assert (tid ≠ param_id r) as Hne by (intros ->; congruence).
  case_bool_decide.
  - destruct (users d !! senderId tx0) as [sender|]; [|done].
    destruct (balance sender <? amount tx0); [done|].
    destruct (update_balance d _ _) as [d1|] eqn:Hd1; [|done].
    apply update_balance_Some in Hd1 as (Ht1 & _ & _).
    destruct (update_balance d1 _ _) as [d2|] eqn:Hd2;
      [|simpl; by rewrite Ht1].
    apply update_balance_Some in Hd2 as (Ht2 & _ & _).
    simpl. rewrite lookup_alter_ne by done. by rewrite Ht2, Ht1.
  - simpl. by rewrite lookup_alter_ne.
Qed.

Lemma requestTransfer_keeps_rows d u b tid tx :
  well_formed d -> transactions d !! tid = Some tx ->
  transactions (fst (requestTransfer d u b)) !! tid = Some tx.
Proof.
  intros Hwf Htx.
  destruct (requestTransfer d u b) as [d' rep] eqn:Hreq. simpl.
  destruct rep as [tid'| | | | | | | | |];
    try (by unfold requestTransfer in Hreq;
         repeat (case_match; simplify_eq); simplify_eq).
  apply requestTransfer_created in Hreq as (-> & _ & rid & a & _ & _ & ->).
  rewrite lookup_insert_ne; [done|].
  apply (wf_fresh d Hwf) in Htx. lia.
Qed.

Lemma exec_all_keeps_terminal os : forall d tid tx,
  well_formed d -> transactions d !! tid = Some tx -> status tx ≠ pending ->
  transactions (exec_all d os) !! tid = Some tx.
Proof.
  induction os as [|o os IH]; intros d tid tx Hwf Htx Hterm; [done|].
  unfold exec_all. simpl. apply IH; [by apply well_formed_exec | | done].
  destruct o as [u b | r]; simpl.
  - by apply requestTransfer_keeps_rows.
  - by apply adminSettle_keeps_terminal.
Qed.

(** C7.  On a reachable ledger, a settlement request of an administrator
    for an id that names no transaction is a not-found error, and for a
    transaction whose status is not [pending] an invalid-state error; either
    way no row of any table changes.  Hence a transaction found [completed]
    or [failed] is the very same row after any further sequence of transfer
    requests and settlements, each run to its reply before the next. *)
Theorem terminal_status_is_final d :
  reachable d ->
  (forall r,
     user_role (actor r) = RoleAdmin ->
     is_Some (status_valid (body_status r)) ->
     (transactions d !! param_id r = None ->
        fails_with NotFoundError d (adminSettle d r)) /\
     (forall tx, transactions d !! param_id r = Some tx ->
        status tx ≠ pending ->
        fails_with InvalidStateError d (adminSettle d r))) /\
  (forall tid tx os,
     transactions d !! tid = Some tx -> status tx ≠ pending ->
     transactions (exec_all d os) !! tid = Some tx /\
     status_of (exec_all d os) tid = Some (status tx)).
Proof.
  intros Hwf%reachable_well_formed. split.
  - intros r Hadmin [s Hs]. unfold adminSettle.
    rewrite bool_decide_eq_false_2 by (by intros []).
    rewrite Hs. simpl. split.
    + by intros ->.
    + intros tx -> Hterm. by rewrite bool_decide_eq_true_2.
  - intros tid tx os Htx Hterm.
    pose proof (exec_all_keeps_terminal os d tid tx Hwf Htx Hterm) as Hkeep.
    split; [done|]. unfold status_of. by rewrite Hkeep.
Qed.

Lemma terminal_status_is_final_witness :
  let d := fst (adminSettle ledger1 (settle_1 completed)) in
  fails_with InvalidStateError d (adminSettle d (settle_1 failed)) /\
  status_of
    (exec_all d [Settle (settle_1 failed); Transfer user1 transfer_30;
                 Settle (settle_1 completed)]) 1 = Some completed.
Proof.
  assert (reachable (fst (adminSettle ledger1 (settle_1 completed)))) as Hr
    by apply (reachable_exec ledger1 (Settle (settle_1 completed))), ledger1_reachable.
  split.
  - destruct (terminal_status_is_final _ Hr) as [Hrej _].
    destruct (Hrej (settle_1 failed)) as [_ Hnp]; [reflexivity | by eexists |].
    eapply Hnp; [reflexivity | discriminate].
  - destruct (terminal_status_is_final _ Hr) as [_ Hkeep].
    destruct (Hkeep 1
      {| senderId := 1; receiverId := 2; amount := 3000; status := completed |}
      [Settle (settle_1 failed); Transfer user1 transfer_30;
       Settle (settle_1 completed)]) as [_ Hst];
      [reflexivity | discriminate | exact Hst].
Defined.

Lemma adminSettle_updated d r d' s :
  adminSettle d r = (d', StatusUpdated s) ->
  user_role (actor r) = RoleAdmin /\
  status_valid (body_status r) = Some s /\
  exists tx,
    transactions d !! param_id r = Some tx /\ status tx = pending /\
    ((s ≠ completed /\ d' = update_status d (param_id r) s) \/
     (s = completed /\
      exists sender d1 d2,
        users d !! senderId tx = Some sender /\
        amount tx <= balance sender /\
        update_balance d (senderId tx) (- amount tx) = Some d1 /\
        update_balance d1 (receiverId tx) (amount tx) = Some d2 /\
        d' = update_status d2 (param_id r) s)).
Proof.
  unfold adminSettle.
  case_bool_decide as Hrole; [discriminate|].
  destruct (status_valid (body_status r)) as [s'|]; [|discriminate]. simpl.
  destruct (transactions d !! param_id r) as [tx|]; [|discriminate].
  case_bool_decide as Hpend; [discriminate|].
  case_bool_decide as Hs.
  - destruct (users d !! senderId tx) as [sender|] eqn:Hsender; [|discriminate].
    destruct (balance sender <? amount tx) eqn:Hlt; [discriminate|].
    apply Z.ltb_ge in Hlt.
    destruct (update_balance d _ _) as [d1|] eqn:Hd1; [|discriminate].
    destruct (update_balance d1 _ _) as [d2|] eqn:Hd2; [|discriminate].
    intros [= <- <-]. do 2 (split; [done|]). exists tx. do 2 (split; [done|]).
    right. split; [done|]. by exists sender, d1, d2.
  - intros [= <- <-]. do 2 (split; [done|]). exists tx. do 2 (split; [done|]).
    by left.
Qed.

Lemma settle_completed_users d tx sender receiver d1 d2 :
  senderId tx ≠ receiverId tx ->
  users d !! senderId tx = Some sender ->
  users d !! receiverId tx = Some receiver ->
  update_balance d (senderId tx) (- amount tx) = Some d1 ->
  update_balance d1 (receiverId tx) (amount tx) = Some d2 ->
  users d2 =
    <[receiverId tx := {| balance := balance receiver + amount tx |}]>
      (<[senderId tx := {| balance := balance sender - amount tx |}]> (users d)) /\
  transactions d2 = transactions d /\ next_tx_id d2 = next_tx_id d.
Proof.
  intros Hne Hs Hr Hd1 Hd2.
  apply update_balance_Some in Hd1 as (Ht1 & Hn1 & [[Hnone _] | (u & Hu & _ & Hus1)]);
    [congruence|].
  assert (u = sender) as -> by congruence.
  apply update_balance_Some in Hd2 as (Ht2 & Hn2 & [[Hnone _] | (v & Hv & _ & Hus2)]).
  - rewrite Hus1, lookup_insert_ne in Hnone by done. congruence.
  - rewrite Hus1, lookup_insert_ne in Hv by done.
    assert (v = receiver) as -> by congruence.
    rewrite Hus2, Hus1, Ht2, Ht1, Hn2, Hn1.
    by replace (balance sender + - amount tx) with (balance sender - amount tx) by lia.
Qed.



(** C9.  When an administrator settles a pending transaction as
    [completed] and the sender's balance is below the amount, the reply is
    an insufficient-funds error and no table changes: the transaction is
    still [pending] and the balances of sender and receiver are what they
    were.  Settling it as [failed] afterwards succeeds. *)
Theorem settle_insufficient_funds d r tx sender :
  user_role (actor r) = RoleAdmin ->
  body_status r = Some completed ->
  transactions d !! param_id r = Some tx ->
  status tx = pending ->
  users d !! senderId tx = Some sender ->
  balance sender < amount tx ->
  let d' := fst (adminSettle d r) in
  snd (adminSettle d r) = InsufficientBalance /\
  fails_with InsufficientFundsError d (adminSettle d r) /\
  status_of d' (param_id r) = Some pending /\
  balance_of d' (senderId tx) = balance_of d (senderId tx) /\
  balance_of d' (receiverId tx) = balance_of d (receiverId tx) /\
  snd (adminSettle d'
         {| actor := actor r; param_id := param_id r;
            body_status := Some failed |}) = StatusUpdated failed.
Proof.
  intros Hadmin Hbody Htx Hpend Hs Hlt.
  assert (adminSettle d r = (d, InsufficientBalance)) as Heq.
  { unfold adminSettle.
    rewrite bool_decide_eq_false_2 by (by intros []).
    rewrite Hbody. simpl. rewrite Htx.
    rewrite bool_decide_eq_false_2 by (by intros []).
    rewrite Hs. apply Z.ltb_lt in Hlt. by rewrite Hlt. }
  rewrite Heq. simpl. unfold fails_with, status_of. simpl.
  rewrite Htx. simpl. rewrite Hpend. repeat split.
  unfold adminSettle. simpl.
  rewrite bool_decide_eq_false_2 by (by intros []).
  rewrite Htx.
  by rewrite bool_decide_eq_false_2 by (by intros []).
Qed.

Lemma settle_insufficient_funds_witness :
  snd (adminSettle ledger1_drained (settle_1 completed)) = InsufficientBalance /\
  fst (adminSettle ledger1_drained (settle_1 completed)) = ledger1_drained.
Proof.
  destruct (settle_insufficient_funds ledger1_drained (settle_1 completed)
    {| senderId := 1; receiverId := 2; amount := 3000; status := pending |}
    {| balance := 2000 |}) as (Hrep & [Hsame _] & _);
    [reflexivity | reflexivity | reflexivity | reflexivity | reflexivity
    | simpl; lia | by split].
Defined.

(** C1 as amended.  On a reachable ledger, a settlement as [completed] of a
    pending transaction whose sender holds at least the amount, whose
    receiver can hold the credit, and which runs from its first statement
    to its reply with no other request in between, sends five statements
    and leaves exactly the debit of the sender, the credit of the receiver
    and the status [completed]; every later settlement of the same
    transaction is an invalid-state error that changes nothing, so the
    balances move by the amount once. *)
Theorem adminSettle_alone_settles_once d r tx sender receiver :
  reachable d ->
  user_role (actor r) = RoleAdmin ->
  body_status r = Some completed ->
  transactions d !! param_id r = Some tx ->
  status tx = pending ->
  users d !! senderId tx = Some sender ->
  users d !! receiverId tx = Some receiver ->
  amount tx <= balance sender ->
  balance receiver + amount tx <= 9999999999 ->
  let d' :=
    {| users :=
         <[receiverId tx := {| balance := balance receiver + amount tx |}]>
           (<[senderId tx := {| balance := balance sender - amount tx |}]>
              (users d));
       transactions :=
         <[param_id r := with_status completed tx]> (transactions d);
       next_tx_id := next_tx_id d |} in
  settle_run 5 d (settle_begin r) = (d', Replied (StatusUpdated completed)) /\
  adminSettle d r = (d', StatusUpdated completed) /\
  (forall r2,
     param_id r2 = param_id r ->
     user_role (actor r2) = RoleAdmin ->
     is_Some (status_valid (body_status r2)) ->
     fails_with InvalidStateError d' (adminSettle d' r2)).
Proof.
  intros Hwf%reachable_well_formed Hadmin Hbody Htx Hpend Hs Hr Hle Hmax d'.
  destruct (wf_parties d Hwf _ _ Htx) as (Hne & _ & _).
  pose proof (wf_balance d Hwf _ _ Hs) as Hbs%decimal_10_2_spec.
  pose proof (wf_balance d Hwf _ _ Hr) as Hbr%decimal_10_2_spec.
  pose proof (wf_amount d Hwf _ _ Htx) as Hamt.
  assert (adminSettle d r = (d', StatusUpdated completed)) as Heq.
  { unfold adminSettle.
    rewrite bool_decide_eq_false_2 by (by intros []).
    rewrite Hbody. simpl. rewrite Htx.
    rewrite bool_decide_eq_false_2 by (by intros []).
    rewrite Hs. apply Z.ltb_ge in Hle as Hge. rewrite Hge.
    rewrite (update_balance_in_range d _ _ sender Hs)
      by (apply decimal_10_2_spec; lia).
    rewrite (update_balance_in_range _ _ _ receiver);
      [| simpl; by rewrite lookup_insert_ne | apply decimal_10_2_spec; lia].
    unfold update_status, set_transactions, set_users, d'. simpl.
    rewrite (alter_lookup_insert _ _ _ tx Htx).
    by replace (balance sender + - amount tx) with (balance sender - amount tx)
      by lia. }
  split; [by rewrite adminSettle_run, Heq|]. split; [exact Heq|].
  intros r2 Hid Hadmin2 [s2 Hs2]. unfold adminSettle.
  rewrite bool_decide_eq_false_2 by (by intros []).
  rewrite Hs2, Hid. simpl. by rewrite lookup_insert_eq.
Qed.

Lemma adminSettle_alone_settles_once_witness :
  exists d',
    adminSettle ledger1 (settle_1 completed) = (d', StatusUpdated completed) /\
    balance_of d' 1 = Some 2000 /\ balance_of d' 2 = Some 4000 /\
    fails_with InvalidStateError d' (adminSettle d' (settle_1 completed)).
Proof.
  destruct (adminSettle_alone_settles_once ledger1 (settle_1 completed)
    {| senderId := 1; receiverId := 2; amount := 3000; status := pending |}
    {| balance := 5000 |} {| balance := 1000 |} ledger1_reachable)
    as (_ & Hok & Hagain);
    [reflexivity | reflexivity | reflexivity | reflexivity | reflexivity
    | reflexivity | simpl; lia | simpl; lia |].
  eexists. split; [exact Hok|]. split; [reflexivity|]. split; [reflexivity|].
  apply Hagain; [reflexivity | reflexivity | by eexists].
Defined.

(** C1, as stated, fails.  A process that stops after the fourth statement
    of a settlement leaves both balances moved and the transaction still
    [pending]; after the third, the sender is debited and the receiver not
    credited.  Two settlements of the same transaction whose statements
    alternate both reply success, and the amount of 30.00 is moved twice:
    the sender, who held 50.00, ends at -10.00.  A settlement as [failed]
    that read the transaction before a settlement as [completed] finished
    marks it [failed] after the balances have moved. *)
Lemma adminSettle_not_indivisible :
  let r := settle_begin (settle_1 completed) in
  let r' := settle_begin (settle_1 failed) in
  (let d := fst (interleave ledger1 [r] [0; 0; 0; 0]%nat) in
   status_of d 1 = Some pending /\
   balance_of d 1 = Some 2000 /\ balance_of d 2 = Some 4000) /\
  (let d := fst (interleave ledger1 [r] [0; 0; 0]%nat) in
   status_of d 1 = Some pending /\
   balance_of d 1 = Some 2000 /\ balance_of d 2 = Some 1000) /\
  (let '(d, pcs) :=
     interleave ledger1 [r; r] [0; 1; 0; 1; 0; 1; 0; 1; 0; 1]%nat in
   pcs = [Replied (StatusUpdated completed); Replied (StatusUpdated completed)] /\
   status_of d 1 = Some completed /\
   balance_of d 1 = Some (5000 - 2 * 3000) /\
   balance_of d 2 = Some (1000 + 2 * 3000)) /\
  (let '(d, pcs) := interleave ledger1 [r; r'] [0; 1; 0; 0; 0; 0; 1]%nat in
   pcs = [Replied (StatusUpdated completed); Replied (StatusUpdated failed)] /\
   status_of d 1 = Some failed /\
   balance_of d 1 = Some 2000 /\ balance_of d 2 = Some 4000).
Proof. vm_compute. repeat split. Qed.

End LedgerFacts.

(** ** The ledger as a whole *)

Module AccountsFacts.
Import JS Ledger Accounts.
Import LedgerFacts.

(** *** Sums of balances *)

Lemma total_balance_insert (m : gmap Z user) k u v :
  m !! k = Some u ->
  map_fold (fun _ u acc => balance u + acc) 0 (<[k := v]> m) =
  map_fold (fun _ u acc => balance u + acc) 0 m - balance u + balance v.
Proof.
  intros Hk.
  rewrite <- (insert_delete_eq m k v).
  rewrite map_fold_insert_L; [| intros; lia | apply lookup_delete_eq].
  rewrite (map_fold_delete_L _ _ k u m); [lia | intros; lia | done].
Qed.

Lemma total_balance_update d uid delta d' :
  update_balance d uid delta = Some d' ->
  is_Some (users d !! uid) ->
  total_balance d' = total_balance d + delta.
Proof.
  intros H [u Hu].
  apply update_balance_Some in H as (_ & _ & [[Hnone _] | (u' & Hu' & _ & Hus)]);
    [congruence|].
  unfold total_balance. rewrite Hus, (total_balance_insert _ _ u') by done.
  simpl. lia.
Qed.

Lemma update_balance_dom d uid delta d' k :
  update_balance d uid delta = Some d' ->
  is_Some (users d' !! k) <-> is_Some (users d !! k).
Proof.
  intros H.
  apply update_balance_Some in H as (_ & _ & [[_ ->] | (u & Hu & _ & ->)]);
    [done|].
  rewrite lookup_insert_is_Some'. split; [|by right].
  intros [<- | ?]; [by eexists | done].
Qed.

(** *** What a single operation may touch *)

Lemma requestTransfer_users d u b :
  users (fst (requestTransfer d u b)) = users d.
Proof.
  unfold requestTransfer, insert_transaction.
  repeat (case_match; simplify_eq); done.
Qed.

Lemma status_valid_not_pending o s : status_valid o = Some s -> s ≠ pending.
Proof. destruct o as [[]|]; simpl; intros [= <-]; done. Qed.

(** X1.  Balances change through nothing but the completion of a pending
    transfer by an administrator: if any balance differs after a transfer
    request or a settlement, the operation was a settlement as [completed],
    sent by an administrator, of a transaction that was [pending] and whose
    sender held at least its amount. *)
Theorem balances_change_only_by_completion d o :
  users (fst (exec d o)) ≠ users d ->
  exists r tx sender,
    o = Settle r /\ user_role (actor r) = RoleAdmin /\
    body_status r = Some completed /\
    transactions d !! param_id r = Some tx /\ status tx = pending /\
    users d !! senderId tx = Some sender /\ amount tx <= balance sender.
Proof.
  destruct o as [u b | r]; simpl.
  - by rewrite requestTransfer_users.
  - unfold adminSettle. case_bool_decide as Hrole; [done|].
    destruct (status_valid (body_status r)) as [s|] eqn:Hs; [|done]. simpl.
    destruct (transactions d !! param_id r) as [tx|] eqn:Htx; [|done].
    case_bool_decide as Hpend; [done|].
    case_bool_decide as Hc; [|done]. subst s.
    destruct (users d !! senderId tx) as [sender|] eqn:Hsender; [|done].
    destruct (balance sender <? amount tx) eqn:Hlt; [done|].
    apply Z.ltb_ge in Hlt. intros _.
    exists r, tx, sender. repeat split; try done.
    by destruct (body_status r) as [[]|].
Qed.

Lemma balances_change_only_by_completion_witness :
  exists r tx sender,
    Settle (settle_1 completed) = Settle r /\
    user_role (actor r) = RoleAdmin /\ body_status r = Some completed /\
    transactions ledger1 !! param_id r = Some tx /\ status tx = pending /\
    users ledger1 !! senderId tx = Some sender /\ amount tx <= balance sender.
Proof.
  apply (balances_change_only_by_completion ledger1 (Settle (settle_1 completed))).
  intros H. apply (f_equal (fun m => m !! 1)) in H. vm_compute in H. discriminate.
Defined.

(** *** Rows of [transactions] over time *)

Lemma adminSettle_row d r tid tx :
  transactions d !! tid = Some tx ->
  next_tx_id (fst (adminSettle d r)) = next_tx_id d /\
  exists tx',
    transactions (fst (adminSettle d r)) !! tid = Some tx' /\
    senderId tx' = senderId tx /\ receiverId tx' = receiverId tx /\
    amount tx' = amount tx /\
    (tx' = tx \/ (status tx = pending /\ status tx' ≠ pending)).
Proof.
  intros Htx.
  assert (forall d0 s,
    transactions d0 = transactions d -> s ≠ pending ->
    (tid = param_id r -> status tx = pending) ->
    exists tx',
      transactions (update_status d0 (param_id r) s) !! tid = Some tx' /\
      senderId tx' = senderId tx /\ receiverId tx' = receiverId tx /\
      amount tx' = amount tx /\
      (tx' = tx \/ (status tx = pending /\ status tx' ≠ pending))) as Hupd.
  { intros d0 s Hd0 Hs Hp. unfold update_status. simpl.
    rewrite Hd0, lookup_alter. case_decide as Hk.
    - subst tid. rewrite Htx. simpl. eexists. split; [done|]. simpl.
      repeat split. right. by split; [apply Hp|].
    - exists tx. by repeat split; [..|left]. }
  assert (exists tx',
      transactions d !! tid = Some tx' /\
      senderId tx' = senderId tx /\ receiverId tx' = receiverId tx /\
      amount tx' = amount tx /\
      (tx' = tx \/ (status tx = pending /\ status tx' ≠ pending))) as Hsame
    by (exists tx; by repeat split; [..|left]).
  unfold adminSettle. case_bool_decide as Hrole; [done|].
  destruct (status_valid (body_status r)) as [s|] eqn:Hs; [|done]. simpl.
  apply status_valid_not_pending in Hs.
  destruct (transactions d !! param_id r) as [tx0|] eqn:Htx0; [|done].
  case_bool_decide as Hpend; [done|].
  assert (tid = param_id r -> status tx = pending) as Hp.
  { intros ->. by assert (tx0 = tx) as -> by congruence. }
  case_bool_decide as Hc.
  - destruct (users d !! senderId tx0) as [sender|]; [|done].
    destruct (balance sender <? amount tx0); [done|].
    destruct (update_balance d _ _) as [d1|] eqn:Hd1; [|done].
    apply update_balance_Some in Hd1 as (Ht1 & Hn1 & _).
    destruct (update_balance d1 _ _) as [d2|] eqn:Hd2.
    + apply update_balance_Some in Hd2 as (Ht2 & Hn2 & _).
      split; [simpl; congruence|]. apply Hupd; [congruence | done | done].
    + simpl. by rewrite Ht1, Hn1.
  - split; [done|]. by apply Hupd.
Qed.

Lemma requestTransfer_next d u b :
  next_tx_id d <= next_tx_id (fst (requestTransfer d u b)).
Proof.
  unfold requestTransfer, insert_transaction.
  repeat (case_match; simplify_eq); simpl; lia.
Qed.

Lemma exec_row d o tid tx :
  well_formed d -> transactions d !! tid = Some tx ->
  next_tx_id d <= next_tx_id (fst (exec d o)) /\
  exists tx',
    transactions (fst (exec d o)) !! tid = Some tx' /\
    senderId tx' = senderId tx /\ receiverId tx' = receiverId tx /\
    amount tx' = amount tx /\
    (tx' = tx \/ (status tx = pending /\ status tx' ≠ pending)).
Proof.
  intros Hwf Htx. destruct o as [u b | r]; simpl.
  - split; [apply requestTransfer_next|]. exists tx.
    split; [by apply requestTransfer_keeps_rows|]. by repeat split; [..|left].
  - destruct (adminSettle_row d r tid tx Htx) as [Hn Hrow].
    split; [lia | exact Hrow].
Qed.

(** X2.  Over any sequence of transfer requests and settlements run one
    after another on a reachable ledger, a row of [transactions] is never
    removed, its id is never given to another transfer, its sender,
    receiver and amount never change, and its status either stays what it
    was or has gone from [pending] to a status other than [pending]. *)
Theorem transaction_rows_are_kept os : forall d tid tx,
  reachable d -> transactions d !! tid = Some tx ->
  next_tx_id d <= next_tx_id (exec_all d os) /\
  exists tx',
    transactions (exec_all d os) !! tid = Some tx' /\
    senderId tx' = senderId tx /\ receiverId tx' = receiverId tx /\
    amount tx' = amount tx /\
    (tx' = tx \/ (status tx = pending /\ status tx' ≠ pending)).
Proof.
  induction os as [|o os IH]; intros d tid tx Hr Htx.
  - split; [done|]. exists tx. by repeat split; [..|left].
  - destruct (exec_row d o tid tx (reachable_well_formed d Hr) Htx)
      as (Hn & tx1 & Htx1 & Hs1 & Hr1 & Ha1 & Hst1).
    destruct (IH (fst (exec d o)) tid tx1 (reachable_exec d o Hr) Htx1)
      as (Hn' & tx2 & Htx2 & Hs2 & Hr2 & Ha2 & Hst2).
    change (exec_all d (o :: os)) with (exec_all (fst (exec d o)) os).
    split; [lia|]. exists tx2. split; [done|].
    split; [congruence|]. split; [congruence|]. split; [congruence|].
    destruct Hst1 as [-> | [Hp1 Hnp1]]; [done|].
    destruct Hst2 as [-> | [Hp2 _]]; [by right | done].
Qed.

Lemma transaction_rows_are_kept_witness :
  exists tx',
    transactions
      (exec_all ledger1 [Transfer user1 transfer_30; Settle (settle_1 failed)])
      !! 1 = Some tx' /\
    senderId tx' = 1 /\ receiverId tx' = 2 /\ amount tx' = 3000.
Proof.
  destruct (transaction_rows_are_kept
              [Transfer user1 transfer_30; Settle (settle_1 failed)] ledger1 1
              {| senderId := 1; receiverId := 2; amount := 3000; status := pending |}
              ledger1_reachable eq_refl)
    as (_ & tx' & Htx' & Hs & Hr & Ha & _).
  by exists tx'.
Defined.

(** *** Solvency *)

Lemma solvent_update_balance d uid delta d' :
  solvent d -> update_balance d uid delta = Some d' ->
  (forall u, users d !! uid = Some u -> 0 <= balance u + delta) ->
  solvent d'.
Proof.
  intros Hsol H Hnew.
  apply update_balance_Some in H as (_ & _ & [[_ Hus] | (u & Hu & _ & Hus)]);
    intros k v; rewrite Hus; [apply Hsol|].
  rewrite lookup_insert. case_decide; [|apply Hsol].
  intros [= <-]. simpl. by apply Hnew.
Qed.

Lemma solvent_exec d o :
  well_formed d -> solvent d -> solvent (fst (exec d o)).
Proof.
  intros Hwf Hsol. destruct o as [u b | r]; simpl.
  - intros k v. rewrite requestTransfer_users. apply Hsol.
  - unfold adminSettle. case_bool_decide; [done|].
    destruct (status_valid (body_status r)) as [s|]; [|done]. simpl.
    destruct (transactions d !! param_id r) as [tx|] eqn:Htx; [|done].
    case_bool_decide; [done|]. case_bool_decide; [|done].
    destruct (users d !! senderId tx) as [sender|] eqn:Hsender; [|done].
    destruct (balance sender <? amount tx) eqn:Hlt; [done|].
    apply Z.ltb_ge in Hlt.
    destruct (update_balance d _ _) as [d1|] eqn:Hd1; [|done].
    assert (solvent d1) as Hsol1.
    { eapply solvent_update_balance; [done..|].
      intros u' Hu'. assert (u' = sender) as -> by congruence. lia. }
    pose proof (wf_amount d Hwf _ _ Htx) as Hamt.
    destruct (update_balance d1 _ _) as [d2|] eqn:Hd2; [|done].
    assert (solvent d2) as Hsol2.
    { eapply solvent_update_balance; [exact Hsol1 | exact Hd2 |].
      intros u' Hu'. apply Hsol1 in Hu'. lia. }
    exact Hsol2.
Qed.

(** X3.  From a reachable ledger in which no balance is negative, no
    sequence of transfer requests and settlements run one after another
    makes a balance negative. *)
Theorem balances_stay_nonnegative os : forall d,
  reachable d -> solvent d -> solvent (exec_all d os).
Proof.
  induction os as [|o os IH]; intros d Hr Hsol; [done|].
  change (exec_all d (o :: os)) with (exec_all (fst (exec d o)) os).
  apply IH; [by apply reachable_exec|].
  by apply solvent_exec; [apply reachable_well_formed|].
Qed.

Lemma ledger1_solvent : solvent ledger1.
Proof.
  intros uid u. unfold ledger1. rewrite requestTransfer_users. simpl.
  rewrite !lookup_insert. repeat case_decide; try (by intros [= <-]).
  by intros [_ <-]%lookup_singleton_Some.
Qed.

Lemma balances_stay_nonnegative_witness :
  solvent
    (exec_all ledger1
       [Settle (settle_1 completed); Transfer user1 transfer_30;
        Settle {| actor := admin9; param_id := 2; body_status := Some completed |}]).
Proof.
  exact (balances_stay_nonnegative _ ledger1 ledger1_reachable ledger1_solvent).
Defined.

(** *** Settlements in flight *)

Lemma in_flight_total_insert pcs : forall i pc pc',
  pcs !! i = Some pc ->
  in_flight_total (<[i := pc']> pcs) =
  in_flight_total pcs - in_flight pc + in_flight pc'.
Proof.
  induction pcs as [|p pcs IH]; intros [|i] pc pc' Hi; try done; simpl in *.
  - injection Hi as ->. lia.
  - rewrite (IH i pc pc' Hi). lia.
Qed.

Lemma settle_step_conserves d pc d' pc' :
  (forall tid tx, transactions d !! tid = Some tx -> parties_known d tx) ->
  pc_known d pc ->
  settle_step d pc = (d', pc') ->
  (forall tid tx, transactions d' !! tid = Some tx -> parties_known d tx) /\
  pc_known d pc' /\
  (forall k, is_Some (users d' !! k) <-> is_Some (users d !! k)) /\
  (pc' = Replied ServerError \/
   total_balance d' + in_flight pc' = total_balance d + in_flight pc).
Proof.
  intros Htab Hpc Hstep.
  assert (forall pc0, pc_known d pc0 ->
    pc0 = Replied ServerError \/ in_flight pc0 = in_flight pc ->
    (forall tid tx, transactions d !! tid = Some tx -> parties_known d tx) /\
    pc_known d pc0 /\
    (forall k, is_Some (users d !! k) <-> is_Some (users d !! k)) /\
    (pc0 = Replied ServerError \/
     total_balance d + in_flight pc0 = total_balance d + in_flight pc)) as Hsame.
  { intros pc0 Hk [-> | Heq]; (split; [exact Htab|]; split; [exact Hk|];
      split; [done|]); [by left | right; lia]. }
  destruct pc as [tid s | tid s tx | tid s tx | tid s tx | tid s | r];
    simpl in Hstep.
  - destruct (transactions d !! tid) as [tx|] eqn:Htx;
      [|injection Hstep as <- <-; by apply Hsame; [|right]].
    case_bool_decide; [injection Hstep as <- <-; by apply Hsame; [|right]|].
    case_bool_decide; injection Hstep as <- <-;
      (apply Hsame; [simpl; by eauto | by right]).
  - destruct (users d !! senderId tx) as [sender|];
      [|injection Hstep as <- <-; by apply Hsame; [|left]].
    destruct (balance sender <? amount tx); injection Hstep as <- <-;
      by apply Hsame; [|right].
  - destruct Hpc as [Hs Hr].
    destruct (update_balance d _ _) as [d1|] eqn:Hd1;
      injection Hstep as <- <-; [|by apply Hsame; [|left]].
    pose proof (total_balance_update _ _ _ _ Hd1 Hs) as Htot.
    pose proof (update_balance_Some _ _ _ _ Hd1) as (Ht & _ & _).
    split; [intros k tx'; rewrite Ht; apply Htab|]. split; [done|].
    split; [intros k; by eapply update_balance_dom|]. right. simpl. lia.
  - destruct Hpc as [Hs Hr].
    destruct (update_balance d _ _) as [d1|] eqn:Hd1;
      injection Hstep as <- <-; [|by apply Hsame; [|left]].
    pose proof (total_balance_update _ _ _ _ Hd1 Hr) as Htot.
    pose proof (update_balance_Some _ _ _ _ Hd1) as (Ht & _ & _).
    split; [intros k tx'; rewrite Ht; apply Htab|]. split; [done|].
    split; [intros k; by eapply update_balance_dom|]. right. simpl. lia.
  - injection Hstep as <- <-. split.
    + intros k tx' Hk. apply lookup_update_status in Hk
        as (tx0 & Htx0 & Hs0 & Hr0 & _).
      unfold parties_known. rewrite Hs0, Hr0. by eapply Htab.
    + split; [done|]. split; [done|]. by right.
  - injection Hstep as <- <-. by apply Hsame; [|right].
Qed.

Lemma pc_known_dom d d' pc :
  (forall k, is_Some (users d' !! k) <-> is_Some (users d !! k)) ->
  pc_known d pc -> pc_known d' pc.
Proof.
  intros Hdom. destruct pc; simpl; try done;
    unfold parties_known; by rewrite !Hdom.
Qed.

Lemma interleave_conserves schedule : forall d pcs d' pcs' T,
  (forall tid tx, transactions d !! tid = Some tx -> parties_known d tx) ->
  Forall (pc_known d) pcs ->
  Exists (fun pc => pc = Replied ServerError) pcs \/
    total_balance d + in_flight_total pcs = T ->
  interleave d pcs schedule = (d', pcs') ->
  Exists (fun pc => pc = Replied ServerError) pcs' \/
    total_balance d' + in_flight_total pcs' = T.
Proof.
  induction schedule as [|i schedule IH];
    intros d pcs d' pcs' T Htab Hpcs Hinv Hrun; simpl in Hrun.
  - by injection Hrun as <- <-.
  - unfold step_request in Hrun.
    destruct (pcs !! i) as [pc|] eqn:Hi; [|by eapply IH].
    destruct (settle_step d pc) as [d1 pc1] eqn:Hstep.
    assert (pc_known d pc) as Hpc
      by (rewrite Forall_forall in Hpcs; by eapply Hpcs, list_elem_of_lookup_2).
    destruct (settle_step_conserves d pc d1 pc1 Htab Hpc Hstep)
      as (Htab1 & Hpc1 & Hdom & Hsum).
    eapply (IH d1 (<[i := pc1]> pcs)); [| | |exact Hrun].
    + intros k tx Hk. apply Htab1 in Hk. unfold parties_known.
      by rewrite !Hdom.
    + apply Forall_insert; [|by eapply pc_known_dom].
      eapply Forall_impl; [exact Hpcs|]. intros pc0. by apply pc_known_dom.
    + destruct Hinv as [Herr | Htot].
      * left. apply Exists_exists in Herr as (pc0 & Hin & ->).
        apply list_elem_of_lookup in Hin as [j Hj].
        apply Exists_exists. exists (Replied ServerError). split; [|done].
        destruct (decide (i = j)) as [->|Hne].
        -- assert (pc = Replied ServerError) as -> by congruence.
           simpl in Hstep. injection Hstep as <- <-.
           apply list_elem_of_lookup. exists j.
           apply list_lookup_insert_eq. by eapply lookup_lt_Some.
        -- apply list_elem_of_lookup. exists j.
           by rewrite list_lookup_insert_ne.
      * destruct Hsum as [-> | Hsum].
        -- left. apply Exists_exists. exists (Replied ServerError).
           split; [|done]. apply list_elem_of_lookup. exists i.
           apply list_lookup_insert_eq. by eapply lookup_lt_Some.
        -- right. rewrite (in_flight_total_insert pcs i pc pc1 Hi). lia.
Qed.

Lemma in_flight_total_begin reqs :
  in_flight_total (settle_begin <$> reqs) = 0.
Proof.
  induction reqs as [|r reqs IH]; [done|]. rewrite fmap_cons. simpl.
  rewrite IH. unfold settle_begin.
  case_bool_decide; [done|]. by destruct (status_valid _).
Qed.

Lemma in_flight_total_replied pcs :
  Forall replied_without_error pcs -> in_flight_total pcs = 0.
Proof.
  induction 1 as [|pc pcs (r & -> & _) _ IH]; [done|]. simpl. lia.
Qed.

(** X4.  However the statements of any number of settlement requests are
    interleaved on a well-formed ledger, once every request has replied and
    none with a server error, the sum of all balances is what it was
    before: concurrent settlements can move an amount twice, but they
    neither create nor destroy money. *)
Theorem interleaved_settlements_conserve_money d reqs schedule d' pcs' :
  well_formed d ->
  interleave d (settle_begin <$> reqs) schedule = (d', pcs') ->
  Forall replied_without_error pcs' ->
  total_balance d' = total_balance d.
Proof.
  intros Hwf Hrun Hdone.
  destruct (interleave_conserves schedule d (settle_begin <$> reqs) d' pcs'
              (total_balance d)) as [Herr | Htot]; [| | |exact Hrun| |].
  - intros tid tx Htx. by destruct (wf_parties d Hwf tid tx Htx) as (_ & ? & ?).
  - apply Forall_fmap, Forall_forall. intros r _. simpl. unfold settle_begin.
    case_bool_decide; [done|]. by destruct (status_valid _).
  - right. rewrite in_flight_total_begin. lia.
  - apply Exists_exists in Herr as (pc & Hin & ->).
    rewrite Forall_forall in Hdone.
    by destruct (Hdone _ Hin) as (r & [= <-] & Hne).
  - rewrite (in_flight_total_replied pcs' Hdone) in Htot. lia.
Qed.

Lemma interleaved_settlements_conserve_money_witness :
  total_balance
    (fst (interleave ledger1
            (settle_begin <$> [settle_1 completed; settle_1 completed])
            [0; 1; 0; 1; 0; 1; 0; 1; 0; 1]%nat)) = total_balance ledger1.
Proof.
  eapply (interleaved_settlements_conserve_money ledger1
            [settle_1 completed; settle_1 completed]
            [0; 1; 0; 1; 0; 1; 0; 1; 0; 1]%nat).
  - apply reachable_well_formed, ledger1_reachable.
  - apply surjective_pairing.
  - vm_compute. repeat constructor; eexists; (split; [reflexivity|discriminate]).
Defined.

(** *** Requests that outrun the balance *)

Lemma requestTransfer_accept d u rid a sender :
  is_Some (users d !! rid) -> users d !! id u = Some sender ->
  rid ≠ id u -> 0 < a <= balance sender -> balance sender <= 9999999999 ->
  requestTransfer d u {| body_receiverId := Some rid; body_amount := Some a |} =
    ({| users := users d;
        transactions :=
          <[next_tx_id d := {| senderId := id u; receiverId := rid;
                               amount := a; status := pending |}]>
            (transactions d);
        next_tx_id := next_tx_id d + 1 |},
     TransferCreated (next_tx_id d)).
Proof.
  intros [rcv Hr] Hs Hne [Hpos Hle] Hmax.
  unfold requestTransfer, transfer_valid. simpl.
  replace (1 <=? a) with true by (symmetry; apply Z.leb_le; lia).
  replace (id u =? rid) with false by (symmetry; apply Z.eqb_neq; congruence).
  rewrite Hr, Hs.
  replace (balance sender <? a) with false by (symmetry; apply Z.ltb_ge; lia).
  unfold insert_transaction. simpl. rewrite Hr, Hs. simpl.
  replace (decimal_10_2 a) with true
    by (symmetry; apply decimal_10_2_spec; lia).
  done.
Qed.

Lemma adminSettle_complete d r tx sender receiver :
  user_role (actor r) = RoleAdmin -> body_status r = Some completed ->
  transactions d !! param_id r = Some tx -> status tx = pending ->
  senderId tx ≠ receiverId tx ->
  users d !! senderId tx = Some sender ->
  users d !! receiverId tx = Some receiver ->
  amount tx <= balance sender ->
  decimal_10_2 (balance sender - amount tx) = true ->
  decimal_10_2 (balance receiver + amount tx) = true ->
  adminSettle d r =
    ({| users :=
          <[receiverId tx := {| balance := balance receiver + amount tx |}]>
            (<[senderId tx := {| balance := balance sender - amount tx |}]>
               (users d));
        transactions :=
          <[param_id r := with_status completed tx]> (transactions d);
        next_tx_id := next_tx_id d |},
     StatusUpdated completed).
Proof.
  intros Hadmin Hbody Htx Hpend Hne Hs Hr Hle Hok1 Hok2.
  unfold adminSettle.
  rewrite bool_decide_eq_false_2 by (by intros []).
  rewrite Hbody. simpl. rewrite Htx.
  rewrite bool_decide_eq_false_2 by (by intros []).
  rewrite Hs. apply Z.ltb_ge in Hle as Hge. rewrite Hge.
  replace (balance sender - amount tx) with (balance sender + - amount tx)
    in * by lia.
  rewrite (update_balance_in_range d _ _ sender Hs Hok1).
  rewrite (update_balance_in_range _ _ _ receiver);
    [| simpl; by rewrite lookup_insert_ne | done].
  unfold update_status, set_transactions, set_users. simpl.
  by rewrite (alter_lookup_insert _ _ _ tx Htx).
Qed.

(** X5.  The balance check of a transfer request reserves nothing.  On a
    reachable ledger a sender may have two requests accepted, each within
    the balance, that together exceed it; when an administrator completes
    the first, the completion of the second is refused for insufficient
    funds, the second stays [pending], and the sender has paid the first
    amount only. *)
Theorem second_request_is_refused_at_settlement d u sender r1 r2 rcv1 a1 a2 adm :
  reachable d ->
  users d !! id u = Some sender ->
  users d !! r1 = Some rcv1 -> is_Some (users d !! r2) ->
  r1 ≠ id u -> r2 ≠ id u ->
  0 < a1 <= balance sender -> 0 < a2 <= balance sender ->
  balance sender < a1 + a2 ->
  balance rcv1 + a1 <= 9999999999 ->
  user_role adm = RoleAdmin ->
  let t1 := next_tx_id d in
  let settle t := {| actor := adm; param_id := t; body_status := Some completed |} in
  let d1 := fst (requestTransfer d u
                   {| body_receiverId := Some r1; body_amount := Some a1 |}) in
  let d2 := fst (requestTransfer d1 u
                   {| body_receiverId := Some r2; body_amount := Some a2 |}) in
  let d3 := fst (adminSettle d2 (settle t1)) in
  snd (requestTransfer d u
         {| body_receiverId := Some r1; body_amount := Some a1 |})
    = TransferCreated t1 /\
  snd (requestTransfer d1 u
         {| body_receiverId := Some r2; body_amount := Some a2 |})
    = TransferCreated (t1 + 1) /\
  snd (adminSettle d2 (settle t1)) = StatusUpdated completed /\
  adminSettle d3 (settle (t1 + 1)) = (d3, InsufficientBalance) /\
  status_of d3 (t1 + 1) = Some pending /\
  balance_of d3 (id u) = Some (balance sender - a1).
Proof.
  intros Hwf%reachable_well_formed Hs Hr1 Hr2 Hne1 Hne2 Ha1 Ha2 Hsum Hmax Hadm
    t1 settle d1 d2 d3.
  pose proof (wf_balance d Hwf _ _ Hs) as Hbs%decimal_10_2_spec.
  pose proof (wf_balance d Hwf _ _ Hr1) as Hbr%decimal_10_2_spec.
  assert (transactions d !! t1 = None) as Hfresh.
  { destruct (transactions d !! t1) as [tx|] eqn:Htx; [|done].
    apply (wf_fresh d Hwf) in Htx. unfold t1 in Htx. lia. }
  unfold d3, d2, d1.
  rewrite (requestTransfer_accept d u r1 a1 sender) by (eauto; lia). simpl.
  rewrite (requestTransfer_accept _ u r2 a2 sender) by (eauto; lia). simpl.
  fold t1.
  set (tx1 := {| senderId := id u; receiverId := r1; amount := a1;
                 status := pending |}).
  set (tx2 := {| senderId := id u; receiverId := r2; amount := a2;
                 status := pending |}).
  rewrite (adminSettle_complete _ (settle t1) tx1 sender rcv1);
    [| done | done
     | simpl; rewrite lookup_insert_ne by lia; apply lookup_insert_eq
     | done | simpl; congruence | done | done | simpl; lia
     | apply decimal_10_2_spec; simpl; lia
     | apply decimal_10_2_spec; simpl; lia].
  simpl. do 3 (split; [done|]).
  split; [|split].
  - unfold adminSettle. simpl.
    rewrite bool_decide_eq_false_2 by (by intros []).
    rewrite lookup_insert_ne by lia. rewrite lookup_insert_eq. simpl.
    rewrite lookup_insert_ne by done. rewrite lookup_insert_eq. simpl.
    by replace (balance sender - a1 <? a2) with true
      by (symmetry; apply Z.ltb_lt; lia).
  - unfold status_of. simpl.
    rewrite lookup_insert_ne by lia. by rewrite lookup_insert_eq.
  - unfold balance_of. simpl.
    rewrite lookup_insert_ne by done. by rewrite lookup_insert_eq.
Qed.

Lemma second_request_is_refused_at_settlement_witness :
  let d3 :=
    fst (adminSettle
           (fst (requestTransfer
                   (fst (requestTransfer ledger0 user1 transfer_30)) user1
                   {| body_receiverId := Some 9; body_amount := Some 4000 |}))
           (settle_1 completed)) in
  adminSettle d3 {| actor := admin9; param_id := 2; body_status := Some completed |}
    = (d3, InsufficientBalance) /\
  balance_of d3 1 = Some 2000.
Proof.
  destruct (second_request_is_refused_at_settlement ledger0 user1
              {| balance := 5000 |} 2 9 {| balance := 1000 |} 3000 4000 admin9
              ledger0_reachable)
    as (_ & _ & _ & Hrefused & _ & Hbal);
    [reflexivity | reflexivity | by eexists | discriminate | discriminate
    | simpl; lia | simpl; lia | simpl; lia | simpl; lia | reflexivity |].
  split; [exact Hrefused | exact Hbal].
Defined.

(** *** Setting a balance *)

(** X8.  When an administrator sets the balance of an existing user to a
    whole number [z] of currency units that the column can hold, the reply
    is a success, that user's balance is [z] units, no other balance and no
    transaction changes, and the new balance is the limit of that user's
    next transfer request to another existing user: the request is accepted
    exactly when its amount is positive and at most the new balance, so
    after a balance of zero or less every such request is refused. *)
Theorem setBalance_sets_the_request_limit d adm uid z u rid a :
  user_role adm = RoleAdmin ->
  is_Some (users d !! uid) ->
  decimal_10_2 (100 * z) = true ->
  id u = uid -> rid ≠ uid -> is_Some (users d !! rid) ->
  let d' := fst (setBalance d adm uid (VNum z)) in
  let b := {| body_receiverId := Some rid; body_amount := Some a |} in
  snd (setBalance d adm uid (VNum z)) = BalanceUpdated /\
  balance_of d' uid = Some (100 * z) /\
  (forall k, k ≠ uid -> users d' !! k = users d !! k) /\
  transactions d' = transactions d /\
  (snd (requestTransfer d' u b) = TransferCreated (next_tx_id d)
   <-> 0 < a <= 100 * z).
Proof.
  intros Hadm [old Hold] Hok Hid Hne [rcv Hrcv] d' b.
  unfold d', setBalance.
  rewrite bool_decide_eq_false_2 by (by intros []).
  rewrite Hold, Hok. simpl.
  split; [done|]. split; [unfold balance_of; simpl; by rewrite lookup_insert_eq|].
  split; [intros k Hk; by rewrite lookup_insert_ne|]. split; [done|].
  unfold requestTransfer, transfer_valid, b. simpl.
  destruct (1 <=? a) eqn:Hpos; [apply Z.leb_le in Hpos | apply Z.leb_gt in Hpos].
  - replace (id u =? rid) with false by (symmetry; apply Z.eqb_neq; congruence).
    rewrite lookup_insert_ne by done. rewrite Hrcv.
    rewrite Hid, lookup_insert_eq. simpl.
    destruct (100 * z <? a) eqn:Hlt;
      [apply Z.ltb_lt in Hlt | apply Z.ltb_ge in Hlt].
    + split; [done | lia].
    + unfold insert_transaction. simpl.
      rewrite lookup_insert_eq, lookup_insert_ne by done. rewrite Hrcv. simpl.
      apply decimal_10_2_spec in Hok.
      replace (decimal_10_2 a) with true
        by (symmetry; apply decimal_10_2_spec; lia).
      simpl. split; [lia | done].
  - split; [done | lia].
Qed.

Lemma setBalance_sets_the_request_limit_witness :
  let d' := fst (setBalance ledger0 admin9 1 (VNum (-5))) in
  balance_of d' 1 = Some (-500) /\
  snd (requestTransfer d' user1 transfer_30) ≠ TransferCreated 1.
Proof.
  destruct (setBalance_sets_the_request_limit ledger0 admin9 1 (-5) user1 2 3000)
    as (_ & Hbal & _ & _ & Hlimit);
    [reflexivity | by eexists | reflexivity | reflexivity | discriminate
    | by eexists |].
  split; [exact Hbal|]. intros Hacc. apply Hlimit in Hacc. lia.
Defined.

End AccountsFacts.

(** ** Views of the ledger *)

Module ViewsFacts.
Import JS Ledger Views.

(** X6.  Where the server's ordering permutes the selected rows and sender
    and receiver of every transaction differ, the history of a user lists
    each transaction once, lists exactly the transactions the user is a
    party to, and marks a transaction [sent] exactly when the user is its
    sender: a transaction appears as [sent] in its sender's history, as
    [received] in its receiver's, and in nobody else's. *)
Theorem history_lists_own_transfers
    (order_by_createdAt : list (Z * transaction) -> list (Z * transaction))
    (d : db) (usernames : gmap Z string) :
  (forall l, order_by_createdAt l ≡ₚ l) ->
  (forall tid tx, transactions d !! tid = Some tx -> senderId tx ≠ receiverId tx) ->
  let history := getHistory order_by_createdAt d usernames in
  (forall u, NoDup (h_id <$> history u)) /\
  (forall u row, row ∈ history u ->
     transactions d !! h_id row = Some (h_transaction row) /\
     match h_type row with
     | sent => senderId (h_transaction row) = u
     | received =>
         receiverId (h_transaction row) = u /\ senderId (h_transaction row) ≠ u
     end) /\
  (forall tid tx, transactions d !! tid = Some tx ->
     (exists row, row ∈ history (senderId tx) /\ h_id row = tid /\
                  h_transaction row = tx /\ h_type row = sent) /\
     (exists row, row ∈ history (receiverId tx) /\ h_id row = tid /\
                  h_transaction row = tx /\ h_type row = received) /\
     (forall u row, u ≠ senderId tx -> u ≠ receiverId tx ->
        row ∈ history u -> h_id row ≠ tid)).
Proof.
  intros Hperm Hne history.
  assert (forall u row, row ∈ history u <->
    exists t, t ∈ map_to_list (transactions d) /\ involves u t /\
      row = {| h_id := fst t; h_transaction := snd t;
               senderUsername := usernames !! senderId (snd t);
               receiverUsername := usernames !! receiverId (snd t);
               h_type := if bool_decide (senderId (snd t) = u) then sent
                         else received |}) as Hin.
  { intros u row. unfold history, getHistory. rewrite list_elem_of_fmap.
    split.
    - intros (t & -> & Ht). rewrite (Hperm _) in Ht.
      apply list_elem_of_filter in Ht as [Hinv Ht]. by exists t.
    - intros (t & Ht & Hinv & ->). exists t. split; [done|].
      rewrite (Hperm _). by apply list_elem_of_filter. }
  split; [|split].
  - intros u. unfold history, getHistory. rewrite <- list_fmap_compose.
    change (h_id ∘ _) with (fst : Z * transaction -> Z).
    rewrite (Hperm _).
    eapply sublist_NoDup; [apply (NoDup_fst_map_to_list (transactions d))|].
    apply fmap_sublist, sublist_filter.
  - intros u row (t & Ht & Hinv & ->)%Hin. destruct t as [tid tx]. simpl in *.
    apply elem_of_map_to_list in Ht. split; [done|].
    case_bool_decide as Hs; [done|].
    destruct Hinv as [?|?]; simpl in *; [done|by split].
  - intros tid tx Htx. apply elem_of_map_to_list in Htx as Hel.
    specialize (Hne tid tx Htx).
    split; [|split].
    + eexists. split; [apply Hin; exists (tid, tx); split; [done|];
        split; [by left | reflexivity]|].
      simpl. by rewrite bool_decide_eq_true_2.
    + eexists. split; [apply Hin; exists (tid, tx); split; [done|];
        split; [by right | reflexivity]|].
      simpl. by rewrite bool_decide_eq_false_2.
    + intros u row Hu1 Hu2 (t & Ht & Hinv & ->)%Hin Heq.
      destruct t as [tid' tx']. simpl in *. subst tid'.
      apply elem_of_map_to_list in Ht.
      assert (tx' = tx) as -> by congruence.
      destruct Hinv as [?|?]; simpl in *; congruence.
Qed.

Lemma history_lists_own_transfers_witness :
  exists row,
    row ∈ getHistory reverse ledger1 ∅ 2 /\ h_id row = 1 /\
    h_type row = received.
Proof.
  destruct (history_lists_own_transfers reverse ledger1 ∅) as (_ & _ & Hall).
  - intros l. apply reverse_Permutation.
  - intros tid tx Htx.
    by destruct (wf_parties ledger1 (LedgerFacts.reachable_well_formed _ LedgerFacts.ledger1_reachable) tid tx Htx) as [? _].
  - destruct (Hall 1
      {| senderId := 1; receiverId := 2; amount := 3000; status := pending |}
      eq_refl) as (_ & (row & Hin & Hid & _ & Hty) & _).
    by exists row.
Defined.

(** *** Searching users *)

Lemma length_filter_out (l : list (Z * string)) (me : Z) :
  NoDup (fst <$> l) ->
  length (filter (fun u => fst u ≠ me) l) =
  (length l - (if bool_decide (me ∈ fst <$> l) then 1 else 0))%nat.
Proof.
  induction l as [|[k name] l IH]; [done|].
  rewrite fmap_cons. intros [Hk Hnd]%NoDup_cons. specialize (IH Hnd).
  rewrite filter_cons. simpl in *. destruct (decide (k ≠ me)) as [Hme|Hme].
  - simpl. rewrite IH.
    rewrite (bool_decide_ext (me ∈ k :: (fst <$> l)) (me ∈ fst <$> l))
      by (rewrite elem_of_cons; split; [intros [?|?]; [congruence|done] | by right]).
    case_bool_decide as Hin; [|lia].
    destruct l; [by apply elem_of_nil in Hin | simpl; lia].
  - assert (k = me) as -> by (by destruct (decide (k = me))).
    rewrite IH. rewrite bool_decide_eq_false_2 by done.
    rewrite bool_decide_eq_true_2 by (apply elem_of_cons; by left). simpl. lia.
Qed.

(** X7.  The user search returns nothing for an absent query or one
    shorter than two characters.  Otherwise it takes the first ten accounts
    whose name matches and then drops the requester: the result has at most
    ten entries, never contains the requester, consists of matching
    accounts only, and when the requester is among those first ten matches
    it is one entry short of them even if further matches exist. *)
Theorem search_excludes_requester (like : string -> string -> bool)
    (accounts : list (Z * string)) (me : Z) (q : option string) :
  NoDup (fst <$> accounts) ->
  let result := searchUsers like accounts me q in
  (forall s, q = Some s -> (String.length s < 2)%nat -> result = []) /\
  (q = None -> result = []) /\
  (length result <= 10)%nat /\
  (me ∉ fst <$> result) /\
  (forall u, u ∈ result ->
     u ∈ accounts /\ exists s, q = Some s /\ like (snd u) s = true) /\
  (forall s, q = Some s -> (2 <= String.length s)%nat ->
     let first_ten := take 10 (filter (fun u => like (snd u) s = true) accounts) in
     length result =
       (length first_ten
        - (if bool_decide (me ∈ fst <$> first_ten) then 1 else 0))%nat).
Proof.
  intros Hnd result. unfold result, searchUsers.
  assert (forall s0 : option string,
    (forall s, s0 = Some s -> (String.length s < 2)%nat) ->
    let nothing : list (Z * string) := [] in
    (forall s, s0 = Some s -> (String.length s < 2)%nat -> nothing = []) /\
    (s0 = None -> nothing = []) /\
    (length nothing <= 10)%nat /\
    (me ∉ fst <$> nothing) /\
    (forall u, u ∈ nothing ->
       u ∈ accounts /\ exists s, s0 = Some s /\ like (snd u) s = true) /\
    (forall s, s0 = Some s -> (2 <= String.length s)%nat ->
       let first_ten :=
         take 10 (filter (fun u => like (snd u) s = true) accounts) in
       length nothing =
         (length first_ten
          - (if bool_decide (me ∈ fst <$> first_ten) then 1 else 0))%nat))
    as Hnothing.
  { intros s0 Hshort nothing. split; [done|]. split; [done|].
    split; [simpl; lia|]. split; [by intros ?%elem_of_nil|].
    split; [by intros u ?%elem_of_nil|].
    intros s Hs Hlen. apply Hshort in Hs. lia. }
  destruct q as [s|]; [|by apply Hnothing].
  destruct (String.length s <? 2)%nat eqn:Hlen.
  - rewrite orb_true_r. apply Nat.ltb_lt in Hlen.
    apply Hnothing. by intros s' [= <-].
  - apply Nat.ltb_ge in Hlen.
    assert (negb (truthy (VStr s)) = false) as ->
      by (destruct s; [simpl in Hlen; lia | done]).
    simpl.
    set (first_ten := take 10 (filter (fun u => like (snd u) s = true) accounts)).
    assert (NoDup (fst <$> first_ten)) as Hnd10.
    { eapply sublist_NoDup; [exact Hnd|]. apply fmap_sublist.
      etrans; [apply sublist_take | apply sublist_filter]. }
    split; [intros s' [= <-] ?; lia|]. split; [done|]. split; [|split; [|split]].
    + etrans; [apply length_filter|]. unfold first_ten.
      rewrite length_take. lia.
    + intros (u & Hu & Hin)%list_elem_of_fmap.
      by apply list_elem_of_filter in Hin as [Hne _].
    + intros u [_ Hin]%list_elem_of_filter. unfold first_ten in Hin.
      apply subseteq_take in Hin.
      apply list_elem_of_filter in Hin as [Hlike Hin]. split; [done|].
      by exists s.
    + intros s' [= <-] _. by apply length_filter_out.
Qed.

Lemma search_excludes_requester_witness :
  let like := fun name q : string => String.prefix q name in
  let accounts := [(1, "anna"); (2, "annika"); (3, "bob")] in
  (1 ∉ fst <$> searchUsers like accounts 1 (Some "an")) /\
  length (searchUsers like accounts 1 (Some "an")) = 1%nat.
Proof.
  intros like accounts.
  destruct (search_excludes_requester like accounts 1 (Some "an"))
    as (_ & _ & _ & Hme & _ & Hlen);
    [apply (bool_decide_unpack _); by vm_compute|].
  split; [exact Hme|]. by rewrite (Hlen "an" eq_refl ltac:(simpl; lia)).
Defined.

End ViewsFacts.

(** ** Scores and results *)

Module ResultsFacts.
Import JS Ledger Assessment Results.
Import AssessmentFacts.

(** *** Which label counts as correct *)

Lemma correctMap_acc (opts : list option_row) :
  forall (m : gmap Z value) (q : Z),
  foldl
    (fun m o =>
       if o_isCorrect o then <[o_questionId o := label_value (o_label o)]> m else m)
    m opts !! q =
  match last (flagged opts q) with
  | Some o => Some (label_value (o_label o))
  | None => m !! q
  end.
Proof.
  unfold flagged.
  induction opts as [|o rest IH]; intros m q; [done|]. simpl.
  rewrite IH, filter_cons. destruct (o_isCorrect o) eqn:Hc.
  - destruct (decide (o_questionId o = q)) as [Hq|Hq].
    + rewrite decide_True by done. rewrite last_cons.
      destruct (last _); [done|]. subst q. by rewrite lookup_insert_eq.
    + rewrite decide_False by (by intros [_ ?]).
      destruct (last _); [done|]. by rewrite lookup_insert_ne.
  - by rewrite decide_False by (by intros [? _]).
Qed.

(** X9.  Scoring accepts, for a question, the label of the last of its
    options flagged correct, in table order, and no other: [correctMap] holds
    that label for the question and has no entry for a question without a
    flagged option, and an entry for the question with a string answer is
    scored, and is scored correct exactly when the answer is the label of
    that last flagged option.  So where two options of a question are
    flagged under different labels, the label of the earlier one is scored
    incorrect, and for a question without a flagged option every string
    answer is scored incorrect. *)
Theorem accepted_label_is_last_flagged (opts : list option_row) (q : Z) :
  correctMap opts !! q =
    (fun o => label_value (o_label o)) <$> last (flagged opts q) /\
  (forall sel, exists res,
     score_answer (correctMap opts) (answer q sel) = Some res /\
     (ar_isCorrect res = true <->
      exists o, last (flagged opts q) = Some o /\ o_label o = Some sel)) /\
  (forall o1 o2 l1 l2,
     flagged opts q = [o1; o2] -> o_label o1 = Some l1 -> o_label o2 = Some l2 ->
     l1 ≠ l2 ->
     exists res,
       score_answer (correctMap opts) (answer q l1) = Some res /\
       ar_isCorrect res = false) /\
  (flagged opts q = [] ->
   forall sel, exists res,
     score_answer (correctMap opts) (answer q sel) = Some res /\
     ar_isCorrect res = false).
Proof.
  assert (correctMap opts !! q =
      (fun o => label_value (o_label o)) <$> last (flagged opts q)) as Hcm.
  { unfold correctMap. rewrite correctMap_acc, lookup_empty.
    by destruct (last _). }
  assert (forall sel, exists res,
     score_answer (correctMap opts) (answer q sel) = Some res /\
     (ar_isCorrect res = true <->
      exists o, last (flagged opts q) = Some o /\ o_label o = Some sel)) as Hscore.
  { intros sel. unfold score_answer, answer. cbn. rewrite Hcm.
    eexists. split; [reflexivity|]. simpl.
    destruct (last (flagged opts q)) as [o|]; simpl.
    - destruct (o_label o) as [l|] eqn:Hl; simpl.
      + rewrite String.eqb_eq. split.
        * intros ->. by exists o.
        * intros (o' & [= <-] & Hl'). congruence.
      + split; [discriminate|]. intros (o' & [= <-] & Hl'). congruence.
    - split; [discriminate|]. by intros (o' & ? & _). }
  split; [exact Hcm|]. split; [exact Hscore|]. split.
  - intros o1 o2 l1 l2 Hfl Hl1 Hl2 Hne.
    destruct (Hscore l1) as (res & Hres & Hiff). exists res. split; [done|].
    destruct (ar_isCorrect res); [|done].
    destruct (proj1 Hiff eq_refl) as (o & Ho & Hl).
    rewrite Hfl in Ho. simpl in Ho. congruence.
  - intros Hfl sel.
    destruct (Hscore sel) as (res & Hres & Hiff). exists res. split; [done|].
    destruct (ar_isCorrect res); [|done].
    destruct (proj1 Hiff eq_refl) as (o & Ho & _).
    rewrite Hfl in Ho. discriminate.
Qed.

Lemma accepted_label_is_last_flagged_witness :
  let opts :=
    [{| o_questionId := 5; o_label := Some "A"; o_optionText := Some "7";
        o_isCorrect := true |};
     {| o_questionId := 5; o_label := Some "B"; o_optionText := Some "seven";
        o_isCorrect := true |}] in
  correctMap opts !! 5 = Some (VStr "B") /\
  exists res,
    score_answer (correctMap opts) (answer 5 "A") = Some res /\
    ar_isCorrect res = false.
Proof.
  intros opts.
  destruct (accepted_label_is_last_flagged opts 5) as (Hcm & _ & Htwo & _).
  split; [by rewrite Hcm|].
  by apply (Htwo _ _ "A" "B" eq_refl eq_refl eq_refl).
Defined.

(** *** What a submission writes *)

Lemma insert_userAnswers_spec coerce rid (rs : list answer_result) :
  forall d d' ok,
  insert_userAnswers coerce d rid rs = (d', ok) ->
  questions d' = questions d /\ questionOptions d' = questionOptions d /\
  testResults d' = testResults d /\ next_result_id d' = next_result_id d /\
  exists rows,
    userAnswers d' = userAnswers d ++ rows /\
    Forall2
      (fun a row =>
         db_int coerce (ar_questionId a) = Some (ua_questionId row) /\
         ua_questionId row ∈ q_id <$> questions d /\
         ua_isCorrect row = ar_isCorrect a /\ ua_testResultId row = rid)
      (take (length rows) rs) rows /\
    if ok then length rows = length rs else (length rows < length rs)%nat.
Proof.
  induction rs as [|a rs IH]; intros d d' ok Hins; simpl in Hins.
  - injection Hins as <- <-. do 4 (split; [done|]). exists [].
    by rewrite app_nil_r.
  - unfold insert_userAnswer in Hins.
    destruct (db_int coerce (ar_questionId a)) as [qid|] eqn:Hq; simpl in Hins;
      [|injection Hins as <- <-; do 4 (split; [done|]); exists [];
        rewrite app_nil_r; repeat split; [constructor | simpl; lia]].
    case_bool_decide as Hin;
      [|injection Hins as <- <-; do 4 (split; [done|]); exists [];
        rewrite app_nil_r; repeat split; [constructor | simpl; lia]].
    apply IH in Hins as (Hqs & Hos & Hts & Hn & rows & Hrows & Hall & Hlen).
    simpl in *. do 4 (split; [done|]).
    exists ({| ua_testResultId := rid; ua_questionId := qid;
               ua_isCorrect := ar_isCorrect a |} :: rows).
    split; [by rewrite Hrows, <- app_assoc|]. split.
    + simpl. constructor; [done|]. exact Hall.
    + destruct ok; simpl; lia.
Qed.

Lemma correct_rows (rs : list answer_result) :
  forall rows : list user_answer,
  Forall2 (fun a row => ua_isCorrect row = ar_isCorrect a) rs rows ->
  length (filter (fun row => ua_isCorrect row = true) rows) =
  length (filter (fun a => ar_isCorrect a = true) rs).
Proof.
  induction rs as [|a rs IH]; intros rows Hall; inversion Hall as [|? row ? rows' Heq Hrest];
    subst; [done|].
  rewrite !filter_cons, Heq. case_decide; simpl; by rewrite (IH _ Hrest).
Qed.

Lemma submit_result_row coerce d uid answers d' r :
  submit coerce d uid answers = (d', Submitted r) ->
  r_id r = next_result_id d /\
  next_result_id d' = next_result_id d + 1 /\
  testResults d' =
    testResults d ++
      [{| tr_id := r_id r; tr_userId := uid; tr_score := r_score r;
          tr_totalQuestions := r_totalQuestions r; tr_iqScore := r_iqScore r |}].
Proof.
  intros Hsub.
  apply submit_Submitted in Hsub
    as (items & rs & -> & _ & Hrs & Hid & Hscore & Htot & Hiq & _ & Hins).
  apply insert_userAnswers_spec in Hins as (_ & _ & Hts & Hn & _).
  simpl in *. by rewrite Hid.
Qed.

(** X10.  An accepted submission leaves the questions and their options as
    they were and writes exactly one result row, with the id, score, number
    of questions and IQ of the reply and the submitting user, and one
    answer row per submitted entry, each for a stored question and tied to
    that result; the number of answer rows flagged correct is the score of
    the reply. *)
Theorem accepted_submission_is_recorded coerce d uid answers d' r :
  submit coerce d uid answers = (d', Submitted r) ->
  questions d' = questions d /\ questionOptions d' = questionOptions d /\
  next_result_id d' = next_result_id d + 1 /\
  testResults d' =
    testResults d ++
      [{| tr_id := r_id r; tr_userId := uid; tr_score := r_score r;
          tr_totalQuestions := r_totalQuestions r; tr_iqScore := r_iqScore r |}] /\
  exists rows,
    userAnswers d' = userAnswers d ++ rows /\
    length rows = length (items_of answers) /\
    Forall
      (fun row => ua_testResultId row = r_id r /\
                  ua_questionId row ∈ q_id <$> questions d) rows /\
    Z.of_nat (length (filter (fun row => ua_isCorrect row = true) rows))
      = r_score r.
Proof.
  intros Hsub.
  apply submit_Submitted in Hsub
    as (items & rs & -> & _ & Hrs & Hid & Hscore & Htot & Hiq & _ & Hins).
  apply insert_userAnswers_spec in Hins
    as (Hqs & Hos & Hts & Hn & rows & Hrows & Hall & Hlen).
  simpl in *. rewrite Hid. do 4 (split; [done|]).
  rewrite Hlen, firstn_all in Hall.
  exists rows. split; [done|].
  split; [by rewrite Hlen, (answerResults_length _ _ _ Hrs)|]. split.
  - eapply Forall2_Forall_r; [exact Hall|].
    apply Forall_forall. intros a _ row (_ & ? & _ & ?).
    split; [congruence | done].
  - rewrite Hscore. unfold correctCount. f_equal. apply correct_rows.
    eapply Forall2_impl; [exact Hall|]. by intros a row (_ & _ & ? & _).
Qed.

Lemma accepted_submission_is_recorded_witness :
  let res := submit refuse_other quiz0 7 (VArr [answer 1 "D"; answer 2 "A"]) in
  exists rows,
    userAnswers (fst res) = userAnswers quiz0 ++ rows /\ length rows = 2%nat /\
    Z.of_nat (length (filter (fun row => ua_isCorrect row = true) rows)) = 1.
Proof.
  intros res.
  destruct (accepted_submission_is_recorded refuse_other quiz0 7
              (VArr [answer 1 "D"; answer 2 "A"]) (fst res)
              {| r_id := 1; r_score := 1; r_totalQuestions := 2;
                 r_iqScore := 100; r_percentage := 50 |})
    as (_ & _ & _ & _ & rows & Hrows & Hlen & _ & Hcount); [by vm_compute|].
  by exists rows.
Defined.

(** *** What a failed submission leaves behind *)

Lemma answerResults_null cm items :
  VNull ∈ items -> answerResults cm items = None.
Proof.
  unfold answerResults.
  induction items as [|a items IH]; [by intros ?%elem_of_nil|].
  intros [<- | Hin]%elem_of_cons; [done|].
  simpl. destruct (score_answer cm a); simpl; [|done].
  by rewrite (IH Hin).
Qed.

(** X11.  A submission whose list contains a [null] entry ends in a server
    error with nothing written.  Every submission that ends in a server
    error has either written nothing, or has written its result row and
    fewer answer rows than it had entries: the result stays visible with
    its answers missing. *)
Theorem failed_submission_leaves_partial_rows coerce d uid :
  (forall items, VNull ∈ items ->
     submit coerce d uid (VArr items) = (d, ServerError)) /\
  (forall answers d',
     submit coerce d uid answers = (d', ServerError) ->
     d' = d \/
     exists row rows,
       testResults d' = testResults d ++ [row] /\ tr_userId row = uid /\
       tr_id row = next_result_id d /\
       tr_totalQuestions row = Z.of_nat (length (items_of answers)) /\
       userAnswers d' = userAnswers d ++ rows /\
       (length rows < length (items_of answers))%nat).
Proof.
  split.
  - intros items Hin. unfold submit. rewrite answers_guard.
    destruct items as [|a items]; [by apply elem_of_nil in Hin|].
    cbn [items_of]. by rewrite (answerResults_null _ _ Hin).
  - intros answers d'. unfold submit. rewrite answers_guard.
    destruct answers as [| | | | |[|a items]|]; try discriminate.
    cbn [items_of].
    destruct (answerResults _ _) as [rs|] eqn:Hrs; [|intros [= <-]; by left].
    cbn [insert_testResult].
    destruct (insert_userAnswers _ _ _ _) as [d2 [|]] eqn:Hins; [discriminate|].
    intros [= <-]. right.
    pose proof (answerResults_length _ _ _ Hrs) as Hl.
    apply insert_userAnswers_spec in Hins
      as (_ & _ & Hts & _ & rows & Hrows & _ & Hlen).
    simpl in Hts, Hrows. eexists _, rows. split; [exact Hts|]. simpl.
    do 3 (split; [done|]). split; [done|]. simpl in Hl. lia.
Qed.

Lemma failed_submission_leaves_partial_rows_witness :
  submit refuse_other quiz0 7 (VArr [answer 1 "D"; VNull]) = (quiz0, ServerError) /\
  length (testResults
            (fst (submit refuse_other quiz0 7 (VArr [answer 1 "D"; answer 999 "A"]))))
    = 1%nat.
Proof.
  destruct (failed_submission_leaves_partial_rows refuse_other quiz0 7)
    as [Hnull Hpartial].
  split; [apply Hnull; apply elem_of_cons; right; apply elem_of_cons; by left|].
  destruct (Hpartial (VArr [answer 1 "D"; answer 999 "A"])
              (fst (submit refuse_other quiz0 7
                      (VArr [answer 1 "D"; answer 999 "A"]))))
    as [Hsame | (row & rows & Hts & _)]; [by vm_compute | | ].
  - by vm_compute in Hsame.
  - rewrite Hts. by rewrite length_app.
Defined.

(** *** The order of the answers *)

Lemma answerResults_cons cm a items rs :
  answerResults cm (a :: items) = Some rs <->
  exists res rest,
    score_answer cm a = Some res /\ answerResults cm items = Some rest /\
    rs = res :: rest.
Proof.
  unfold answerResults. rewrite mapM_Some. split.
  - intros H. inversion H as [|? res ? rest Ha Hrest]; subst.
    exists res, rest. by rewrite mapM_Some.
  - intros (res & rest & Ha & Hrest & ->). constructor; [done|].
    by apply mapM_Some.
Qed.

Lemma answerResults_Permutation cm items items' :
  items ≡ₚ items' ->
  forall rs, answerResults cm items = Some rs ->
  exists rs', answerResults cm items' = Some rs' /\ rs ≡ₚ rs'.
Proof.
  induction 1 as [|a l l' _ IH|a b l|l l1 l2 _ IH1 _ IH2]; intros rs Hrs.
  - by exists rs.
  - apply answerResults_cons in Hrs as (res & rest & Ha & Hrest & ->).
    destruct (IH rest Hrest) as (rest' & Hrest' & Hp).
    exists (res :: rest'). split; [|by constructor].
    apply answerResults_cons. by exists res, rest'.
  - apply answerResults_cons in Hrs as (rb & rest & Hb & Hrest & ->).
    apply answerResults_cons in Hrest as (ra & rest' & Ha & Hrest & ->).
    exists (ra :: rb :: rest'). split; [|by constructor].
    apply answerResults_cons. exists ra, (rb :: rest'). split; [done|].
    split; [|done]. apply answerResults_cons. by exists rb, rest'.
  - destruct (IH1 rs Hrs) as (rs1 & Hrs1 & Hp1).
    destruct (IH2 rs1 Hrs1) as (rs2 & Hrs2 & Hp2).
    exists rs2. split; [done|]. by etrans.
Qed.

Lemma insert_userAnswers_ok coerce rid (rs : list answer_result) :
  forall d,
  snd (insert_userAnswers coerce d rid rs) = true <->
  Forall
    (fun a => exists q, db_int coerce (ar_questionId a) = Some q /\
                        q ∈ q_id <$> questions d) rs.
Proof.
  induction rs as [|a rs IH]; intros d; simpl; [by split; [constructor|]|].
  unfold insert_userAnswer.
  destruct (db_int coerce (ar_questionId a)) as [q|] eqn:Hq; simpl.
  - case_bool_decide as Hin; simpl.
    + rewrite IH. simpl. split.
      * intros Hall. constructor; [by exists q | done].
      * by intros [_ Hall]%Forall_cons.
    + split; [done|]. intros [(q' & Hq' & Hin') _]%Forall_cons. congruence.
  - split; [done|]. intros [(q' & Hq' & _) _]%Forall_cons. congruence.
Qed.

(** X12.  The order of the submitted entries does not matter to the
    outcome: if a list of answers is accepted, every reordering of it is
    accepted with the same result id, score, number of questions, IQ and
    percentage, and writes the same result row. *)
Theorem order_of_answers_is_irrelevant coerce d uid items items' d1 r :
  items ≡ₚ items' ->
  submit coerce d uid (VArr items) = (d1, Submitted r) ->
  exists d2,
    submit coerce d uid (VArr items') = (d2, Submitted r) /\
    testResults d2 = testResults d1.
Proof.
  intros Hperm Hsub.
  apply submit_Submitted in Hsub
    as (? & rs & [= <-] & Hne & Hrs & Hid & Hscore & Htot & Hiq & Hp & Hins).
  destruct r as [rid sc tot iq pct]. simpl in *. subst rid sc tot iq pct.
  destruct (answerResults_Permutation _ _ _ Hperm rs Hrs) as (rs' & Hrs' & Hprs).
  assert (correctCount rs' = correctCount rs) as Hcount.
  { unfold correctCount. by rewrite Hprs. }
  assert (length items' = length items) as Hlen by (by rewrite Hperm).
  unfold submit. rewrite answers_guard.
  destruct items' as [|a' items']; [by destruct items|].
  cbn [items_of]. rewrite Hrs', Hcount, Hlen.
  cbn [insert_testResult].
  match type of Hins with
  | insert_userAnswers _ ?d0 ?rid _ = _ =>
      pose proof (proj1 (insert_userAnswers_ok coerce rid rs d0)) as Hall;
      pose proof (proj2 (insert_userAnswers_ok coerce rid rs' d0)) as Hok;
      destruct (insert_userAnswers coerce d0 rid rs') as [d2 ok] eqn:Hins'
  end.
  rewrite Hins in Hall. specialize (Hall eq_refl). rewrite Hprs in Hall.
  specialize (Hok Hall). simpl in Hok. subst ok.
  exists d2. split; [done|].
  apply insert_userAnswers_spec in Hins' as (_ & _ & Hts2 & _).
  apply insert_userAnswers_spec in Hins as (_ & _ & Hts1 & _).
  by rewrite Hts2, Hts1.
Qed.

Lemma order_of_answers_is_irrelevant_witness :
  exists d2 r,
    submit refuse_other quiz0 7 (VArr [answer 2 "A"; answer 1 "D"])
      = (d2, Submitted r) /\ r_score r = 1 /\ r_iqScore r = 100.
Proof.
  destruct (order_of_answers_is_irrelevant refuse_other quiz0 7
              [answer 1 "D"; answer 2 "A"] [answer 2 "A"; answer 1 "D"]
              (fst (submit refuse_other quiz0 7 (VArr [answer 1 "D"; answer 2 "A"])))
              {| r_id := 1; r_score := 1; r_totalQuestions := 2;
                 r_iqScore := 100; r_percentage := 50 |})
    as (d2 & Hsub & _); [apply perm_swap | by vm_compute |].
  by eexists d2, _.
Defined.

(** *** The shape of the banding *)

Lemma iq_shape_upto_100 :
  forallb (fun n => iq_steps_up n && iq_in_range n && iq_ends n) (seqZ 1 100)
  = true.
Proof. vm_compute. reflexivity. Qed.

(** X13.  For up to 100 submitted answers the IQ, as the handler computes
    it, never falls when the score rises, lies between 70 and 150, is 70
    for no correct answer and 150 when every answer is correct. *)
Theorem iqScore_rises_with_score n k1 k2 :
  1 <= n <= 100 -> 0 <= k1 <= k2 -> k2 <= n ->
  iqScore (percentage k1 n) <= iqScore (percentage k2 n) /\
  70 <= iqScore (percentage k1 n) /\ iqScore (percentage k2 n) <= 150 /\
  iqScore (percentage 0 n) = 70 /\ iqScore (percentage n n) = 150.
Proof.
  intros Hn Hk Hk2.
  pose proof iq_shape_upto_100 as H. rewrite forallb_forall in H.
  specialize (H n ltac:(apply list_elem_of_In, elem_of_seqZ; lia)).
  apply andb_prop in H as [[Hup Hrange]%andb_prop Hends].
  unfold iq_steps_up in Hup. unfold iq_in_range in Hrange.
  rewrite forallb_forall in Hup. rewrite forallb_forall in Hrange.
  assert (forall k, 0 <= k <= n ->
    70 <= iqScore (percentage k n) <= 150) as Hr.
  { intros k Hkn.
    specialize (Hrange k ltac:(apply list_elem_of_In, elem_of_seqZ; lia)).
    apply andb_prop in Hrange as [H1 H2]. apply Z.leb_le in H1, H2. lia. }
  assert (forall k, 0 <= k < n ->
    iqScore (percentage k n) <= iqScore (percentage (k + 1) n)) as Hstep.
  { intros k Hkn. apply Z.leb_le, Hup, list_elem_of_In, elem_of_seqZ. lia. }
  apply andb_prop in Hends as [H0 Hfull]. apply Z.eqb_eq in H0, Hfull.
  split; [|split; [apply Hr; lia | split; [apply Hr; lia | done]]].
  assert (forall j : nat, k1 + Z.of_nat j <= n ->
    iqScore (percentage k1 n) <= iqScore (percentage (k1 + Z.of_nat j) n))
    as Hmono.
  { induction j as [|j IH]; intros Hj.
    - replace (k1 + Z.of_nat 0) with k1 by lia. lia.
    - etrans; [apply IH; lia|].
      replace (k1 + Z.of_nat (S j)) with (k1 + Z.of_nat j + 1) by lia.
      apply Hstep. lia. }
  specialize (Hmono (Z.to_nat (k2 - k1))).
  replace (k1 + Z.of_nat (Z.to_nat (k2 - k1))) with k2 in Hmono by lia.
  apply Hmono. lia.
Qed.

Lemma iqScore_rises_with_score_witness :
  iqScore (percentage 1 3) <= iqScore (percentage 2 3) /\
  iqScore (percentage 3 3) = 150.
Proof.
  destruct (iqScore_rises_with_score 3 1 2) as (Hle & _ & _ & _ & Hfull);
    [lia | lia | lia |]. by split.
Defined.

(** *** What a request for a result is answered *)

Lemma results_fresh_lookup d i :
  results_fresh d -> next_result_id d <= i ->
  filter (fun row => tr_id row = i) (testResults d) = [].
Proof.
  intros Hfresh Hi. apply elem_of_nil_inv. intros row [Hid Hin]%list_elem_of_filter.
  apply Hfresh in Hin. lia.
Qed.

(** X14.  The handler for a single result never serves one.  Where the ids
    of the stored results lie below the counter, the id that an accepted
    submission of user [uid] is about to get is answered not found before
    the submission; after it, a request for the new result by a user who is
    neither [uid] nor an administrator is denied, and a request by [uid] or
    by an administrator ends in a server error; a request for any other id
    is answered as it was before the submission, an id that does not parse
    ends in a server error, and the ids still lie below the counter. *)
Theorem submitted_result_is_denied_to_others coerce d uid answers d' r :
  results_fresh d ->
  submit coerce d uid answers = (d', Submitted r) ->
  results_fresh d' /\
  (forall user, result_access d user (Some (r_id r)) = ResultNotFound) /\
  (forall user,
     result_access d' user (Some (r_id r)) =
       if bool_decide (uid ≠ Ledger.id user)
          && bool_decide (Ledger.user_role user ≠ Ledger.RoleAdmin)
       then AccessDenied
       else ResultFailed) /\
  (forall user i, i ≠ r_id r ->
     result_access d' user (Some i) = result_access d user (Some i)) /\
  (forall user, result_access d' user None = ResultFailed).
Proof.
  intros Hfresh Hsub.
  apply submit_result_row in Hsub as (Hid & Hn & Hts).
  split; [|split; [|split; [|split]]].
  - intros row. rewrite Hts, Hn. intros [Hin | Hin]%elem_of_app.
    + apply Hfresh in Hin. lia.
    + apply list_elem_of_singleton in Hin as ->. simpl. lia.
  - intros user. unfold result_access.
    by rewrite (results_fresh_lookup d (r_id r) Hfresh) by lia.
  - intros user. unfold result_access. rewrite Hts, filter_app.
    rewrite (results_fresh_lookup d (r_id r) Hfresh) by lia.
    rewrite filter_cons, decide_True by done. done.
  - intros user i Hi. unfold result_access. rewrite Hts, filter_app.
    rewrite filter_cons, decide_False by done. by rewrite filter_nil, app_nil_r.
  - done.
Qed.

Lemma submitted_result_is_denied_to_others_witness :
  let d' := fst (submit refuse_other quiz0 7 (VArr [answer 1 "D"])) in
  result_access d' {| Ledger.id := 8; Ledger.user_role := Ledger.RoleUser |} (Some 1)
    = AccessDenied /\
  result_access d' {| Ledger.id := 7; Ledger.user_role := Ledger.RoleUser |} (Some 1)
    = ResultFailed /\
  result_access d' {| Ledger.id := 9; Ledger.user_role := Ledger.RoleAdmin |} (Some 1)
    = ResultFailed.
Proof.
  intros d'.
  destruct (submitted_result_is_denied_to_others refuse_other quiz0 7
              (VArr [answer 1 "D"]) d'
              {| r_id := 1; r_score := 1; r_totalQuestions := 1;
                 r_iqScore := 150; r_percentage := 100 |})
    as (_ & _ & Hacc & _); [by intros row ?%elem_of_nil | by vm_compute |].
  by rewrite !(Hacc _).
Defined.

(** *** The history of a user *)

(** X15.  Where the server's ordering permutes the selected rows, the test
    history of a user holds that user's results only; an accepted
    submission adds its result row to the history of the submitting user
    and to no other user's history. *)
Theorem history_gains_the_new_result
    (order_by_completedAt : list test_result -> list test_result)
    coerce d uid answers d' r :
  (forall l, order_by_completedAt l ≡ₚ l) ->
  submit coerce d uid answers = (d', Submitted r) ->
  let history := getTestHistory order_by_completedAt in
  (forall v row, row ∈ history d' v -> tr_userId row = v) /\
  history d' uid ≡ₚ
    {| tr_id := r_id r; tr_userId := uid; tr_score := r_score r;
       tr_totalQuestions := r_totalQuestions r; tr_iqScore := r_iqScore r |}
    :: history d uid /\
  (forall v, v ≠ uid -> history d' v = history d v).
Proof.
  intros Hperm Hsub history.
  apply submit_result_row in Hsub as (_ & _ & Hts).
  unfold history, getTestHistory. split; [|split].
  - intros v row Hin. rewrite (Hperm _) in Hin.
    by apply list_elem_of_filter in Hin as [? _].
  - rewrite !(Hperm _), Hts, filter_app, filter_cons, decide_True by done.
    rewrite filter_nil. by rewrite Permutation_app_comm.
  - intros v Hv. rewrite Hts, filter_app, filter_cons.
    rewrite decide_False by (simpl; congruence).
    by rewrite filter_nil, app_nil_r.
Qed.

Lemma history_gains_the_new_result_witness :
  length (getTestHistory reverse
            (fst (submit refuse_other quiz0 7 (VArr [answer 1 "D"]))) 7) = 1%nat.
Proof.
  destruct (history_gains_the_new_result reverse refuse_other quiz0 7
              (VArr [answer 1 "D"])
              (fst (submit refuse_other quiz0 7 (VArr [answer 1 "D"])))
              {| r_id := 1; r_score := 1; r_totalQuestions := 1;
                 r_iqScore := 150; r_percentage := 100 |})
    as (_ & Hnew & _);
    [intros l; apply reverse_Permutation | by vm_compute |].
  by rewrite (Permutation_length Hnew).
Defined.

End ResultsFacts.

(** ** The dashboard and the books *)

Module DashboardFacts.
Import JS Ledger Accounts Dashboard.
Import LedgerFacts AccountsFacts.

(** *** Sums over the transactions *)

Lemma tally_insert_fresh w (m : gmap Z transaction) k tx :
  m !! k = None -> tally w (<[k := tx]> m) = w tx + tally w m.
Proof.
  intros Hk. unfold tally. rewrite map_fold_insert_L; [done | intros; lia | done].
Qed.

Lemma tally_alter w (f : transaction -> transaction) (m : gmap Z transaction) k tx :
  m !! k = Some tx -> tally w (alter f k m) = tally w m - w tx + w (f tx).
Proof.
  intros Hk. unfold tally.
  rewrite (alter_lookup_insert f m k tx Hk).
  rewrite <- (insert_delete_eq m k (f tx)).
  rewrite map_fold_insert_L; [| intros; lia | apply lookup_delete_eq].
  rewrite (map_fold_delete_L _ _ k tx m); [lia | intros; lia | done].
Qed.

(** *** The shapes an operation can leave *)

Lemma exec_created d o d' tid :
  well_formed d -> exec d o = (d', TransferCreated tid) ->
  users d' = users d /\ transactions d !! tid = None /\
  exists tx, status tx = pending /\
    transactions d' = <[tid := tx]> (transactions d).
Proof.
  intros Hwf H. destruct o as [u b | r]; simpl in H.
  - apply requestTransfer_created in H as (-> & Hus & rid & a & _ & _ & Hts).
    split; [done|]. split.
    + destruct (transactions d !! next_tx_id d) as [tx|] eqn:Htx; [|done].
      apply (wf_fresh d Hwf) in Htx. lia.
    + eexists. split; [|exact Hts]. done.
  - exfalso. revert H. unfold adminSettle.
    repeat (case_match; simplify_eq); done.
Qed.

Lemma exec_updated d o d' s :
  well_formed d -> exec d o = (d', StatusUpdated s) ->
  exists r tx,
    o = Settle r /\ transactions d !! param_id r = Some tx /\
    status tx = pending /\ s ≠ pending /\
    transactions d' = alter (with_status s) (param_id r) (transactions d) /\
    ((s ≠ completed /\ users d' = users d) \/
     (s = completed /\
      exists sender receiver,
        senderId tx ≠ receiverId tx /\
        users d !! senderId tx = Some sender /\
        users d !! receiverId tx = Some receiver /\
        amount tx <= balance sender /\
        users d' =
          <[receiverId tx := {| balance := balance receiver + amount tx |}]>
            (<[senderId tx := {| balance := balance sender - amount tx |}]>
               (users d)))).
Proof.
  intros Hwf H. destruct o as [u b | r]; simpl in H.
  - exfalso. revert H. unfold requestTransfer.
    repeat (case_match; simplify_eq); done.
  - apply adminSettle_updated in H as (_ & Hs & tx & Htx & Hpend & Hcase).
    apply status_valid_not_pending in Hs.
    exists r, tx. do 4 (split; [done|]).
    destruct Hcase as [[Hne ->] | (-> & sender & d1 & d2 & Hsender & Hle & Hd1 & Hd2 & ->)].
    + split; [done|]. by left.
    + destruct (wf_parties d Hwf _ _ Htx) as (Hne & _ & [receiver Hreceiver]).
      destruct (settle_completed_users d tx sender receiver d1 d2)
        as (Hus & Hts & _); [done..|].
      split; [simpl; by rewrite Hts|]. right. split; [done|].
      by exists sender, receiver.
Qed.

Lemma exec_rejected d o :
  (forall tid, snd (exec d o) ≠ TransferCreated tid) ->
  (forall s, snd (exec d o) ≠ StatusUpdated s) ->
  transactions (fst (exec d o)) = transactions d /\
  (forall k, is_Some (users (fst (exec d o)) !! k) <-> is_Some (users d !! k)) /\
  size (users (fst (exec d o))) = size (users d) /\
  (snd (exec d o) ≠ ServerError -> fst (exec d o) = d).
Proof.
  destruct o as [u b | r]; simpl.
  - unfold requestTransfer, insert_transaction.
    repeat (case_match; simplify_eq); simpl; intros Hc Hu; try done.
    by destruct (Hc (next_tx_id d)).
  - unfold adminSettle.
    case_bool_decide; [done|].
    destruct (status_valid (body_status r)) as [s|]; [|done]. simpl.
    destruct (transactions d !! param_id r) as [tx|]; [|done].
    case_bool_decide; [done|]. case_bool_decide.
    + destruct (users d !! senderId tx) as [sender|]; [|done].
      destruct (balance sender <? amount tx); [done|].
      destruct (update_balance d _ _) as [d1|] eqn:Hd1; [|done].
      destruct (update_balance d1 _ _) as [d2|] eqn:Hd2; simpl.
      * intros _ H2. by destruct (H2 s).
      * intros _ _.
        pose proof (fun k => update_balance_dom _ _ _ _ k Hd1) as Hdom.
        apply update_balance_Some in Hd1
          as (Ht1 & _ & [[_ Hus] | (u & Hu & _ & Hus)]).
        -- by rewrite Hus.
        -- split; [done|]. split; [intros k; apply Hdom|]. split; [|done].
           rewrite Hus. by apply map_size_insert_Some.
    + simpl. intros _ H2. by destruct (H2 s).
Qed.

(** *** The figures of the dashboard *)

(** X16.  The dashboard of an administrator follows the ledger: on a
    reachable ledger an accepted transfer request raises the number of
    pending transactions by one and leaves the completed volume; a
    settlement that succeeds lowers the number of pending transactions by
    one and, when it completes the transfer, raises the completed volume by
    the amount of that transfer; every other outcome, a server error
    included, leaves both figures; and no operation changes the number of
    users or of tests. *)
Theorem dashboard_follows_operations d a adm o s :
  reachable d -> getStats d a adm = Some s ->
  exists s',
    getStats (fst (exec d o)) a adm = Some s' /\
    totalUsers s' = totalUsers s /\ totalTests s' = totalTests s /\
    match snd (exec d o) with
    | TransferCreated _ =>
        pendingTransactions s' = pendingTransactions s + 1 /\
        totalTransactionVolume s' = totalTransactionVolume s
    | StatusUpdated st =>
        pendingTransactions s' = pendingTransactions s - 1 /\
        totalTransactionVolume s' =
          totalTransactionVolume s +
          (if decide (st = completed) then settled_amount d o else 0)
    | _ =>
        pendingTransactions s' = pendingTransactions s /\
        totalTransactionVolume s' = totalTransactionVolume s
    end.
Proof.
  intros Hr%reachable_well_formed. unfold getStats.
  case_bool_decide; [done|]. intros [= <-]. eexists. split; [done|]. simpl.
  destruct (exec d o) as [d' r] eqn:He.
  assert ((forall tid, r ≠ TransferCreated tid) -> (forall st, r ≠ StatusUpdated st) ->
          size (users d') = size (users d) /\ transactions d' = transactions d)
    as Hrej.
  { intros Ht Hs.
    destruct (exec_rejected d o) as (Hts & _ & Hsz & _);
      rewrite ?He; [done | done |].
    by rewrite He in Hts, Hsz. }
  destruct r; simpl;
    try (destruct (Hrej ltac:(done) ltac:(done)) as [-> ->]; done).
  - apply exec_created in He as (-> & Hnone & tx & Hpend & ->); [|done].
    split; [done|]. split; [done|].
    rewrite !tally_insert_fresh by done.
    unfold count_if, amount_if, has_status. rewrite Hpend. simpl. lia.
  - apply exec_updated in He
      as (r & tx & -> & Htx & Hpend & Hs & -> & Hus); [|done].
    split; [|split; [done|]].
    + f_equal. destruct Hus as [[_ ->] | (_ & sender & receiver & Hne & Hsnd & Hrcv & _ & ->)];
        [done|].
      rewrite map_size_insert_Some, map_size_insert_Some; [done | by eexists |].
      rewrite lookup_insert_ne by done. by eexists.
    + rewrite !(tally_alter _ _ _ _ tx) by done. simpl. rewrite Htx. simpl.
      unfold count_if, amount_if, has_status. simpl. rewrite Hpend. simpl.
      rewrite (bool_decide_eq_false_2 (s = pending)) by done.
      destruct (decide (s = completed)) as [-> | Hc].
      * simpl. lia.
      * rewrite (bool_decide_eq_false_2 (s = completed)) by done. lia.
Qed.

Lemma dashboard_follows_operations_witness :
  (pendingTransactions <$> getStats ledger1 Assessment.quiz0 admin9) = Some 1 /\
  (totalTransactionVolume <$>
     getStats (fst (exec ledger1 (Settle (settle_1 completed))))
       Assessment.quiz0 admin9) = Some 3000.
Proof.
  destruct (dashboard_follows_operations ledger1 Assessment.quiz0 admin9
              (Settle (settle_1 completed))
              {| totalUsers := 3; totalTests := 0; pendingTransactions := 1;
                 totalTransactionVolume := 0 |}
              ledger1_reachable eq_refl)
    as (s' & Hs' & _ & _ & Hfig).
  split; [by vm_compute|]. rewrite Hs'. simpl. f_equal.
  change (snd (exec ledger1 (Settle (settle_1 completed))))
    with (StatusUpdated completed) in Hfig.
  destruct Hfig as [_ ->]. by vm_compute.
Defined.

(** *** Balances against the completed transfers *)

Lemma run_cons d o os :
  run d (o :: os) =
    (fst (run (fst (exec d o)) os), snd (exec d o) :: snd (run (fst (exec d o)) os)).
Proof.
  simpl. destruct (exec d o) as [d1 r]. simpl. by destruct (run d1 os).
Qed.

Lemma exec_outcome d o :
  well_formed d ->
  (exists tid tx,
     snd (exec d o) = TransferCreated tid /\
     users (fst (exec d o)) = users d /\ transactions d !! tid = None /\
     status tx = pending /\
     transactions (fst (exec d o)) = <[tid := tx]> (transactions d)) \/
  (exists s r tx,
     snd (exec d o) = StatusUpdated s /\
     o = Settle r /\ transactions d !! param_id r = Some tx /\
     status tx = pending /\ s ≠ pending /\
     transactions (fst (exec d o)) =
       alter (with_status s) (param_id r) (transactions d) /\
     ((s ≠ completed /\ users (fst (exec d o)) = users d) \/
      (s = completed /\
       exists sender receiver,
         senderId tx ≠ receiverId tx /\
         users d !! senderId tx = Some sender /\
         users d !! receiverId tx = Some receiver /\
         amount tx <= balance sender /\
         users (fst (exec d o)) =
           <[receiverId tx := {| balance := balance receiver + amount tx |}]>
             (<[senderId tx := {| balance := balance sender - amount tx |}]>
                (users d))))) \/
  (transactions (fst (exec d o)) = transactions d /\
   (forall k, is_Some (users (fst (exec d o)) !! k) <-> is_Some (users d !! k)) /\
   (snd (exec d o) ≠ ServerError -> fst (exec d o) = d)).
Proof.
  intros Hwf.
  destruct (exec d o) as [d' r] eqn:He.
  destruct r; simpl;
    try (right; right;
         destruct (exec_rejected d o) as (Hts & Hdom & _ & Hsame);
         rewrite ?He; [done | done |];
         by rewrite He in Hts, Hdom, Hsame).
  - left. apply exec_created in He as (? & ? & tx & ? & ?); [|done].
    by exists transactionId, tx.
  - right. left. apply exec_updated in He as (r & tx & ? & ? & ? & ? & ? & ?);
      [|done].
    by exists s, r, tx.
Qed.

Lemma reconciled_initial d0 : initial d0 -> reconciled d0 d0.
Proof.
  intros (Hts & _ & _) uid u0 Hu. unfold balance_of, sent, received, tally.
  rewrite Hu, Hts, !map_fold_empty. simpl. f_equal. lia.
Qed.

Lemma reconciled_exec d0 d o :
  well_formed d -> reconciled d0 d -> snd (exec d o) ≠ ServerError ->
  reconciled d0 (fst (exec d o)).
Proof.
  intros Hwf Hrec Hok.
  destruct (exec_outcome d o Hwf)
    as [(tid & tx & _ & Hus & Hnone & Hpend & Hts)
       | [(s & r & tx & _ & _ & Htx & Hpend & Hs & Hts & Hus)
         | (_ & _ & Hsame)]].
  - intros uid u0 Hu. specialize (Hrec uid u0 Hu).
    unfold balance_of, sent, received in *. rewrite Hus, Hts.
    rewrite !tally_insert_fresh by done.
    unfold amount_if, has_status in *. rewrite Hpend. simpl. by rewrite Hrec.
  - intros uid u0 Hu. specialize (Hrec uid u0 Hu).
    unfold balance_of, sent, received in *. rewrite Hts.
    rewrite !(tally_alter _ _ _ _ tx) by done.
    unfold amount_if, has_status in *. simpl. rewrite Hpend. simpl.
    destruct Hus as [[Hc ->] | (-> & sender & receiver & Hne & Hsnd & Hrcv & _ & ->)].
    + rewrite (bool_decide_eq_false_2 (s = completed)) by done. simpl.
      rewrite Hrec. f_equal. lia.
    + simpl. rewrite !lookup_insert. 
      destruct (decide (receiverId tx = uid)) as [<- | Hr].
      * rewrite bool_decide_eq_true_2 by done.
        rewrite (bool_decide_eq_false_2 (senderId tx = receiverId tx)) by done.
        rewrite Hrcv in Hrec. simpl in *. injection Hrec as Hrec. f_equal. lia.
      * rewrite (bool_decide_eq_false_2 (receiverId tx = uid)) by done.
        destruct (decide (senderId tx = uid)) as [<- | Hs'].
        -- rewrite bool_decide_eq_true_2 by done.
           rewrite Hsnd in Hrec. simpl in *. injection Hrec as Hrec. f_equal. lia.
        -- rewrite (bool_decide_eq_false_2 (senderId tx = uid)) by done.
           rewrite Hrec. f_equal. lia.
  - by rewrite Hsame.
Qed.

Lemma reconciled_run d0 os : forall d,
  reachable d -> reconciled d0 d -> ServerError ∉ snd (run d os) ->
  reconciled d0 (fst (run d os)).
Proof.
  induction os as [|o os IH]; intros d Hr Hrec Hok; [done|].
  rewrite run_cons in *. simpl in *.
  apply not_elem_of_cons in Hok as [Hhead Htail].
  apply IH; [by apply reachable_exec | | done].
  apply reconciled_exec; [by apply reachable_well_formed | done | congruence].
Qed.

(** X17.  The balances agree with the books: starting from a ledger without
    transactions and running transfer requests and settlements one after
    another, as long as no reply was a server error the balance of every
    user is the opening balance plus the amounts of the completed transfers
    the user received less the amounts of the completed transfers the user
    sent. *)
Theorem balances_reconcile_with_completed_transfers d0 os uid u0 :
  initial d0 -> ServerError ∉ snd (run d0 os) ->
  users d0 !! uid = Some u0 ->
  balance_of (fst (run d0 os)) uid =
    Some (balance u0 + received (fst (run d0 os)) uid - sent (fst (run d0 os)) uid).
Proof.
  intros Hinit Hok Hu.
  by apply (reconciled_run d0 os d0);
    [apply reachable_initial | apply reconciled_initial | |].
Qed.

Lemma balances_reconcile_with_completed_transfers_witness :
  let d := fst (run ledger0 [Transfer user1 transfer_30; Settle (settle_1 completed)]) in
  balance_of d 2 = Some (1000 + received d 2 - sent d 2) /\ received d 2 = 3000.
Proof.
  intros d. split; [|by vm_compute].
  apply (balances_reconcile_with_completed_transfers ledger0
           [Transfer user1 transfer_30; Settle (settle_1 completed)]
           2 {| balance := 1000 |}).
  - repeat split. intros uid u. simpl. rewrite !lookup_insert.
    repeat case_decide; try (by intros [= <-]).
    by intros [_ <-]%lookup_singleton_Some.
  - change (ServerError ∉ [TransferCreated 1; StatusUpdated completed]).
    by intros [? | [? | ?%elem_of_nil]%elem_of_cons]%elem_of_cons.
  - by vm_compute.
Defined.

(** *** When no statement of a settlement can fail *)









End DashboardFacts.
